(** * relayr: the exchange hub, its relay dispatch and its socket transport

    A shallow embedding of the source of the [Exchange] (relay registry,
    reflective dispatch, client/group registry, broadcast) and of
    [websocket-transport.go] (connection table, outbound queues, read loop),
    followed by the properties of the hub that are established on it.

    Go pointers that may be nil are [option]s; a nil dereference, a send on a
    closed channel, a method call on a nil interface and a failed
    [reflect.Value.Call] are run-time panics, which the model makes explicit
    in the result of every operation that can raise one. *)

From Stdlib Require Import ZArith List Ascii String.
From stdpp Require Import gmap strings list fin_maps.

Set Warnings "-register-all".
Open Scope string_scope.
Open Scope Z_scope.
Open Scope list_scope.

(** ** Wire values

    What [encoding/json] produces for an [interface{}] target and accepts
    back when encoding.  Numbers are opaque payload for the hub (it never
    computes with them), so they are carried as integers. *)

Inductive value :=
| VNull
| VBool (b : bool)
| VNum (n : Z)
| VStr (s : string)
| VArr (l : list value)
| VObj (fields : list (string * value)).

(** ** Reflection

    [reflect.Type] as far as the exchange looks at it: the name of the type
    and its exported methods.  A named type lists the methods declared with
    a value receiver and those declared with a pointer receiver; the method
    set of [T] holds the former, that of [*T] holds both, and a pointer to a
    pointer has no methods.  A pointer type has no name. *)

(** An argument handed to [reflect.Value.Call]: [reflect.ValueOf] of the
    relay handle or of one decoded wire value. *)
Inductive rvalue :=
| RelayPtr (name connectionID : string)
| Iface (v : value).

(** A method as [reflect] sees it.  [accepts] is the check [Call] makes on
    its inputs before the method body runs (their number, and that each is
    assignable to the parameter it is passed for); [Call] panics when it
    fails. *)
Record method := {
  mname : string;
  accepts : list rvalue → bool
}.

Inductive rtype :=
| Named (name : string) (value_recv ptr_recv : list method)
| PtrTo (elem : rtype).

Definition type_Name (t : rtype) : string :=
  match t with
  | Named n _ _ => n
  | PtrTo _ => ""
  end.

Definition method_set (t : rtype) : list method :=
  match t with
  | Named _ vm _ => vm
  | PtrTo (Named _ vm pm) => vm ++ pm
  | PtrTo (PtrTo _) => []
  end.

(** [reflect.New(t)] is a value of type [*t]. *)
Definition reflect_New (t : rtype) : rtype := PtrTo t.

(** [v.MethodByName(fn)]; [None] is the zero [reflect.Value]. *)
Definition MethodByName (vt : rtype) (fn : string) : option method :=
  find (λ m, bool_decide (mname m = fn)) (method_set vt).

(** ** Data of the exchange and of the socket transport *)

(** The two implementations of the [Transport] interface. *)
Inductive transportKind := WebSocket | LongPoll.

(** Modelled from the spec: the [Relay] struct, whose declaration is not
    among the embedded sources.  It serves for a registered definition
    (name, method names) and for a handle (name, connection id); the fields
    and their names are those the struct literals of the exchange set.
    [getRelayByName] leaves [methods] unset in the handles it builds.  The
    back pointers ([exchange], [Clients]) and [UnderlyingStruct] carry no
    information of their own here: there is one exchange. *)
Record Relay := {
  r_Name : string;
  r_ConnectionID : string;
  r_t : rtype;
  r_methods : list string
}.

(** Modelled from the spec: the [client] struct, whose declaration is not
    among the embedded sources: a connection id and the transport the
    client uses.  [c_transport] is the interface value stored at
    negotiation, nil when the requested transport does not exist. *)
Record client := {
  c_ConnectionID : string;
  c_transport : option transportKind
}.

(** A [connection] of the socket transport: its id and a reference to its
    outbound channel. *)
Record connection := {
  conn_id : string;
  conn_out : nat
}.

(** A buffered Go channel of encoded messages. *)
Record channel := {
  ch_buf : list value;
  ch_closed : bool
}.

(** Effects that leave the hub, in the order they happen. *)
Inductive event :=
| Invoked (relayType fn : string) (inputs : list rvalue)
| Sent (k : transportKind) (relayName connectionID fn : string) (args : list value)
| Closed (ch : nat)
| WsClosed (id : string).

(** The state the two source files share: the [Exchange] fields ([relays],
    [groups], [verbosity]), the socket transport's [connections] table, the
    channels that connections refer to, and the log of effects. *)
Record Hub := {
  relays : list Relay;
  groups : gmap string (list (option client));
  verbosity : Z;
  connections : gmap string connection;
  chans : gmap nat channel;
  trace : list event
}.

Definition set_relays (f : list Relay → list Relay) (h : Hub) : Hub :=
  {| relays := f (relays h); groups := groups h; verbosity := verbosity h;
     connections := connections h; chans := chans h; trace := trace h |}.

Definition set_groups (f : gmap string (list (option client)) → gmap string (list (option client)))
    (h : Hub) : Hub :=
  {| relays := relays h; groups := f (groups h); verbosity := verbosity h;
     connections := connections h; chans := chans h; trace := trace h |}.

Definition set_connections (f : gmap string connection → gmap string connection) (h : Hub) : Hub :=
  {| relays := relays h; groups := groups h; verbosity := verbosity h;
     connections := f (connections h); chans := chans h; trace := trace h |}.

Definition set_chans (f : gmap nat channel → gmap nat channel) (h : Hub) : Hub :=
  {| relays := relays h; groups := groups h; verbosity := verbosity h;
     connections := connections h; chans := f (chans h); trace := trace h |}.

Definition set_trace (f : list event → list event) (h : Hub) : Hub :=
  {| relays := relays h; groups := groups h; verbosity := verbosity h;
     connections := connections h; chans := chans h; trace := f (trace h) |}.

(** ** Computations on the hub

    A call returns, panics in the goroutine that runs it, or brings the
    process down ([Fatal]: a panic in a goroutine started with [go], which
    nothing recovers).  The state reached is kept in all three cases. *)

Inductive result (A : Type) :=
| Ok (a : A)
| Panic
| Fatal.
Arguments Ok {A} a.
Arguments Panic {A}.
Arguments Fatal {A}.

Definition M (A : Type) : Type := Hub → Hub * result A.

Definition ret {A} (a : A) : M A := λ h, (h, Ok a).

Definition bind {A B} (m : M A) (k : A → M B) : M B :=
  λ h, match m h with
       | (h', Ok a) => k a h'
       | (h', Panic) => (h', Panic)
       | (h', Fatal) => (h', Fatal)
       end.

Definition panic {A} : M A := λ h, (h, Panic).

Definition get : M Hub := λ h, (h, Ok h).

Definition modify (f : Hub → Hub) : M unit := λ h, (f h, Ok tt).

Definition emit (ev : event) : M unit := modify (set_trace (λ tr, tr ++ [ev])).

(** [go m]: the goroutine is run to its end at the point where it starts. *)
Definition spawn {A} (m : M A) : M unit :=
  λ h, match m h with
       | (h', Ok _) => (h', Ok tt)
       | (h', _) => (h', Fatal)
       end.

(** [defer d] around [m]: [d] runs when [m] returns and when it panics. *)
Definition deferred {A} (m : M A) (d : M unit) : M A :=
  λ h, match m h with
       | (h', Ok a) => bind d (λ _, ret a) h'
       | (h', Panic) => bind d (λ _, panic) h'
       | (h', Fatal) => (h', Fatal)
       end.

#[global] Instance M_ret : MRet M := @ret.
#[global] Instance M_bind : MBind M := λ A B k m, bind m k.

(** [*p] for a pointer that may be nil. *)
Definition deref {A} (p : option A) : M A :=
  match p with
  | Some a => ret a
  | None => panic
  end.

(** [for _, x := range l { body x }] *)
Fixpoint for_each {A} (body : A → M unit) (l : list A) : M unit :=
  match l with
  | [] => ret tt
  | x :: l' => body x;; for_each body l'
  end.

(** ** The relay registry and reflective dispatch (Exchange) *)

Definition getMethodsForType (t : rtype) : list string :=
  map mname (method_set t).

(** [RegisterRelay(x)] with [t] the dynamic type of [x]. *)
Definition RegisterRelay (t : rtype) : M unit :=
  modify (set_relays (λ rs, rs ++ [{| r_Name := type_Name t; r_ConnectionID := "";
                                      r_t := t; r_methods := getMethodsForType t |}])).

Definition getRelayByName_in (rs : list Relay) (name cID : string) : option Relay :=
  match find (λ r, bool_decide (r_Name r = name)) rs with
  | Some r => Some {| r_Name := name; r_ConnectionID := cID; r_t := r_t r; r_methods := [] |}
  | None => None
  end.

Definition getRelayByName (name cID : string) : M (option Relay) :=
  h ← get; ret (getRelayByName_in (relays h) name cID).

Inductive error :=
| UnknownMethod (fn relayName : string).

Definition buildArgValues (relay : Relay) (args : list value) : list rvalue :=
  RelayPtr (r_Name relay) (r_ConnectionID relay) :: map Iface args.

Definition callRelayMethod (relay : option Relay) (fn : string) (args : list value)
    : M (option error) :=
  r ← deref relay;
  match MethodByName (reflect_New (r_t r)) fn with
  | None => ret (Some (UnknownMethod fn (r_Name r)))
  | Some m =>
      let inputs := buildArgValues r args in
      if accepts m inputs
      then emit (Invoked (type_Name (r_t r)) (mname m) inputs);; ret None
      else panic
  end.

(** ** The client and group registry (Exchange) *)

(** [e.transports[t]]: the two transports [NewExchange] installs; any other
    key gives the nil interface. *)
Definition transports (t : string) : option transportKind :=
  if bool_decide (t = "websocket") then Some WebSocket
  else if bool_decide (t = "longpoll") then Some LongPoll
  else None.

(** [gs[g]] for a map of slices: the nil slice when [g] is not a key. *)
Definition members_of (gs : gmap string (list (option client))) (g : string)
    : list (option client) :=
  default [] (gs !! g).

Definition verbose (h : Hub) : bool := bool_decide (0 < verbosity h).

(** The loops [for _, c := range e.groups[group] { log.Printf(..., c.ConnectionID) }]
    of [addToGroup]: nothing but the dereference of each entry matters. *)
Definition logClients (l : list (option client)) : M unit :=
  for_each (λ c, _ ← deref c; ret tt) l.

(** [addClient(t)], with [cID] the id that [generateConnectionID] returned. *)
Definition addClient (cID t : string) : M string :=
  modify (set_groups (λ gs,
    <["Global" := members_of gs "Global"
                  ++ [Some {| c_ConnectionID := cID; c_transport := transports t |}]]> gs));;
  ret cID.

Fixpoint getClientByConnectionID_in (l : list (option client)) (cID : string)
    : M (option client) :=
  match l with
  | [] => ret None
  | p :: l' =>
      c ← deref p;
      if bool_decide (c_ConnectionID c = cID) then ret (Some c)
      else getClientByConnectionID_in l' cID
  end.

Definition getClientByConnectionID (cID : string) : M (option client) :=
  h ← get; getClientByConnectionID_in (members_of (groups h) "Global") cID.

Fixpoint index_from (i : Z) (l : list (option client)) (id : string) : Z :=
  match l with
  | [] => -1
  | Some c :: l' =>
      if bool_decide (c_ConnectionID c = id) then i else index_from (i + 1) l' id
  | None :: l' => index_from (i + 1) l' id
  end.

Definition getClientIndexInGroup (h : Hub) (g id : string) : Z :=
  index_from 0 (members_of (groups h) g) id.

Definition addToGroup (group connectionID : string) : M unit :=
  h ← get;
  if bool_decide (getClientIndexInGroup h group connectionID = -1) then
    c ← getClientByConnectionID connectionID;
    modify (set_groups (λ gs, <[group := members_of gs group ++ [c]]> gs));;
    h' ← get;
    if verbose h' then logClients (members_of (groups h') group) else ret tt
  else
    if verbose h then logClients (members_of (groups h) group) else ret tt.

Definition removeFromGroupByID (g id : string) : M unit :=
  h ← get;
  let i := getClientIndexInGroup h g id in
  if bool_decide (-1 < i) then
    let group := members_of (groups h) g in
    let group' := take (Z.to_nat i) group ++ drop (Z.to_nat (i + 1)) group in
    modify (set_groups (<[g := group']>));;
    if bool_decide (length group' = 0%nat) then modify (set_groups (delete g))
    else ret tt
  else ret tt.

(** [for group := range e.groups { e.removeFromGroupByID(group, id) }].  Go
    fixes no order for the keys; the body deletes at most the key it is
    at, so every key of the map is visited once.  [ks] is that order. *)
Definition removeFromAllGroups_over (ks : list string) (id : string) : M unit :=
  for_each (λ g, removeFromGroupByID g id) ks.

Definition removeFromAllGroups (id : string) : M unit :=
  h ← get; removeFromAllGroups_over (map fst (map_to_list (groups h))) id.

(** ** The socket transport (websocket-transport.go) *)

(** A channel that was made and never written to is open and empty. *)
Definition chan_at (h : Hub) (ch : nat) : channel :=
  default {| ch_buf := []; ch_closed := false |} (chans h !! ch).

(** [ch <- msg].  The buffer bound only delays the sender until the write
    loop has drained the queue, so it is left out. *)
Definition chan_send (ch : nat) (msg : value) : M unit :=
  h ← get;
  if ch_closed (chan_at h ch) then panic
  else modify (set_chans (<[ch := {| ch_buf := ch_buf (chan_at h ch) ++ [msg];
                                      ch_closed := false |}]>)).

(** [close(ch)] *)
Definition chan_close (ch : nat) : M unit :=
  h ← get;
  if ch_closed (chan_at h ch) then panic
  else modify (set_chans (<[ch := {| ch_buf := ch_buf (chan_at h ch);
                                      ch_closed := true |}]>));;
       emit (Closed ch).

(** The JSON text that [CallClientFunction] writes: the object of the
    unnamed struct [{R, M, A}]. *)
Definition encodeOut (relayName fn : string) (args : list value) : value :=
  VObj [("R", VStr relayName); ("M", VStr fn); ("A", VArr args)].

Definition ws_CallClientFunction (relay : option Relay) (fn : string) (args : list value)
    : M unit :=
  r ← deref relay;
  let buff := encodeOut (r_Name r) fn args in
  h ← get;
  match connections h !! r_ConnectionID r with
  | Some o => chan_send (conn_out o) buff
  | None => ret tt
  end.

(** Modelled from the spec: the long-poll transport's [CallClientFunction],
    whose source file is not among those embedded here.  It delivers "to the
    connection id carried by the handle", so it needs the handle; what it
    does with its own queues is not looked at. *)
Definition lp_CallClientFunction (relay : option Relay) (fn : string) (args : list value)
    : M unit :=
  _ ← deref relay; ret tt.

(** [c.transport.CallClientFunction(r, fn, args...)]: a call through the
    [Transport] interface value of a client.  The call is logged as [Sent]
    when it reaches a transport with a handle. *)
Definition transport_CallClientFunction (t : option transportKind) (relay : option Relay)
    (fn : string) (args : list value) : M unit :=
  k ← deref t;
  match relay with
  | Some r => emit (Sent k (r_Name r) (r_ConnectionID r) fn args)
  | None => ret tt
  end;;
  match k with
  | WebSocket => ws_CallClientFunction relay fn args
  | LongPoll => lp_CallClientFunction relay fn args
  end.

(** ** Calls to clients (Exchange) *)

(** What the loop of [callGroupMethod] does for an entry that is not nil. *)
Definition callGroupClient (relay : option Relay) (fn : string) (args : list value)
    (c : client) : M unit :=
  rl ← deref relay;
  r ← getRelayByName (r_Name rl) (c_ConnectionID c);
  transport_CallClientFunction (c_transport c) r fn args.

Definition callGroupMethod (relay : option Relay) (group fn : string) (args : list value)
    : M unit :=
  h ← get;
  match groups h !! group with
  | Some members =>
      for_each (λ p,
        match p with
        | None => ret tt
        | Some c => callGroupClient relay fn args c
        end) members
  | None => ret tt
  end.

Definition callClientMethod (r : option Relay) (fn : string) (args : list value) : M unit :=
  rl ← deref r;
  if bool_decide (r_ConnectionID rl = "") then callGroupMethod r "Global" fn args
  else
    c ← getClientByConnectionID (r_ConnectionID rl);
    match c with
    | Some c' => transport_CallClientFunction (c_transport c') r fn args
    | None => ret tt
    end.

Definition callGroupMethodExcept (relay : option Relay) (group fn : string)
    (args : list value) : M unit :=
  h ← get;
  for_each (λ p,
    c ← deref p;
    rl ← deref relay;
    if bool_decide (c_ConnectionID c = r_ConnectionID rl) then ret tt
    else
      r ← getRelayByName (r_Name rl) (c_ConnectionID c);
      transport_CallClientFunction (c_transport c) r fn args)
    (members_of (groups h) group).

(** ** The event loop of the socket transport *)

Inductive notification :=
| Connected (c : connection)
| Disconnected (c : connection).

(** One turn of [listen]: what it does with the notification it received. *)
Definition listen_step (n : notification) : M unit :=
  match n with
  | Connected conn => modify (set_connections (<[conn_id conn := conn]>))
  | Disconnected conn =>
      h ← get;
      match connections h !! conn_id conn with
      | Some _ =>
          removeFromAllGroups (conn_id conn);;
          modify (set_connections (delete (conn_id conn)));;
          chan_close (conn_out conn)
      | None => ret tt
      end
  end.

(** [c.connected <- conn] and [c.disconnected <- conn]: the channels are
    unbuffered, so the sender goes on when [listen] has taken the
    notification; [listen] runs in a goroutine of its own. *)
Definition notify (n : notification) : M unit := spawn (listen_step n).

(** ** Decoding an inbound envelope *)

(** [webSocketClientMessage]; [longPollServerCall] has the same fields and
    the same JSON keys. *)
Record webSocketClientMessage := {
  m_Server : bool;
  m_Relay : string;
  m_Method : string;
  m_Arguments : list value;
  m_ConnectionID : string
}.

Definition zero_message : webSocketClientMessage :=
  {| m_Server := false; m_Relay := ""; m_Method := ""; m_Arguments := [];
     m_ConnectionID := "" |}.

(** The bytes read from a peer: a JSON text, or anything else. *)
Inductive payload :=
| Garbage
| Json (j : value).

Inductive field := FS | FR | FM | FA | FC.

(** [encoding/json] matches an object key with a field's name exactly or
    under simple case folding; U+017F (bytes 197 191) folds to S. *)
Definition field_of_key (k : string) : option field :=
  if bool_decide (k = "S" ∨ k = "s" ∨ k = String "197"%char (String "191"%char "")) then Some FS
  else if bool_decide (k = "R" ∨ k = "r") then Some FR
  else if bool_decide (k = "M" ∨ k = "m") then Some FM
  else if bool_decide (k = "A" ∨ k = "a") then Some FA
  else if bool_decide (k = "C" ∨ k = "c") then Some FC
  else None.

(** One member of the object.  The boolean is false when the value does not
    fit the field: the decoder notes the error, skips the value and goes
    on.  [null] leaves a bool or a string as it is and empties a slice; a
    nil slice and an empty one are the same sequence here. *)
Definition with_Arguments (m : webSocketClientMessage) (l : list value)
    : webSocketClientMessage :=
  {| m_Server := m_Server m; m_Relay := m_Relay m; m_Method := m_Method m;
     m_Arguments := l; m_ConnectionID := m_ConnectionID m |}.

Definition decode_member (m : webSocketClientMessage) (kv : string * value)
    : webSocketClientMessage * bool :=
  match field_of_key kv.1 with
  | None => (m, true)
  | Some f =>
      match f, kv.2 with
      | FA, VNull => (with_Arguments m [], true)
      | _, VNull => (m, true)
      | FS, VBool b =>
          ({| m_Server := b; m_Relay := m_Relay m; m_Method := m_Method m;
              m_Arguments := m_Arguments m; m_ConnectionID := m_ConnectionID m |}, true)
      | FR, VStr s =>
          ({| m_Server := m_Server m; m_Relay := s; m_Method := m_Method m;
              m_Arguments := m_Arguments m; m_ConnectionID := m_ConnectionID m |}, true)
      | FM, VStr s =>
          ({| m_Server := m_Server m; m_Relay := m_Relay m; m_Method := s;
              m_Arguments := m_Arguments m; m_ConnectionID := m_ConnectionID m |}, true)
      | FA, VArr l => (with_Arguments m l, true)
      | FC, VStr s =>
          ({| m_Server := m_Server m; m_Relay := m_Relay m; m_Method := m_Method m;
              m_Arguments := m_Arguments m; m_ConnectionID := s |}, true)
      | _, _ => (m, false)
      end
  end.

Fixpoint decode_members (m : webSocketClientMessage) (fs : list (string * value))
    : webSocketClientMessage * bool :=
  match fs with
  | [] => (m, true)
  | kv :: fs' =>
      let (m1, ok1) := decode_member m kv in
      let (m2, ok2) := decode_members m1 fs' in
      (m2, ok1 && ok2)
  end.

(** [json.Unmarshal(message, &m)] on a zero [m]: the message as far as it
    was filled in, and whether [err == nil]. *)
Definition unmarshal (p : payload) : webSocketClientMessage * bool :=
  match p with
  | Garbage => (zero_message, false)
  | Json VNull => (zero_message, true)
  | Json (VObj fs) => decode_members zero_message fs
  | Json _ => (zero_message, false)
  end.

(** ** The read loop of a connection *)

(** The body of the loop for a message that [ReadMessage] returned. *)
Definition read_message (c : connection) (message : payload) : M unit :=
  let (m, ok) := unmarshal message in
  if ok then
    relay ← getRelayByName (m_Relay m) (m_ConnectionID m);
    if m_Server m then
      _ ← callRelayMethod relay (m_Method m) (m_Arguments m); ret tt
    else
      ws_CallClientFunction relay (m_Method m) [VArr (m_Arguments m)]
  else ret tt.

(** The loop over the messages a peer sends before [ReadMessage] fails,
    which it does when the socket goes away. *)
Fixpoint read_loop (c : connection) (messages : list payload) : M unit :=
  match messages with
  | [] => ret tt
  | message :: rest => read_message c message;; read_loop c rest
  end.

Definition read (c : connection) (messages : list payload) : M unit :=
  deferred (read_loop c messages;; emit (WsClosed (conn_id c)))
           (notify (Disconnected c)).

(** [vs[0]] *)
Definition first_of {A} (vs : list A) : M A :=
  match vs with
  | v :: _ => ret v
  | [] => panic
  end.

(** [upgradeWebSocket]: [upgraded] tells whether the upgrade succeeded,
    [connectionId] holds the values of that query parameter, [out] is the
    channel that [make] returned, [messages] is what the peer goes on to
    send.  The write loop and the keep-alive only drain the queue and probe
    the socket. *)
Definition upgradeWebSocket (upgraded : bool) (connectionId : list string) (out : nat)
    (messages : list payload) : M unit :=
  if upgraded then
    id ← first_of connectionId;
    let c := {| conn_id := id; conn_out := out |} in
    notify (Connected c);;
    deferred (read c messages) (notify (Disconnected c))
  else ret tt.

(** [callServer]: the body of the request and its [connectionId] values. *)
Definition callServer (body : payload) (connectionId : list string) : M unit :=
  let msg := (unmarshal body).1 in
  cid ← first_of connectionId;
  relay ← getRelayByName (m_Relay msg) cid;
  spawn (callRelayMethod relay (m_Method msg) (m_Arguments msg)).

(** [NewExchange(mainURL, verbosity)], with both transports empty. *)
Definition NewExchange (verbosity : Z) : Hub :=
  {| relays := []; groups := ∅; verbosity := verbosity; connections := ∅;
     chans := ∅; trace := [] |}.

(** ** Negotiation and server-side handles (Exchange) *)

(** [json.Decoder.Decode(&neg)] into [negotiation{T string}]: the value of
    the last member whose key is T, in either case, and whose value is a
    string; the error is not looked at. *)
Definition decode_T (T : string) (kv : string * value) : string :=
  if bool_decide (kv.1 = "T" ∨ kv.1 = "t")
  then match kv.2 with VStr s => s | _ => T end
  else T.

Definition unmarshal_negotiation (p : payload) : string :=
  match p with
  | Json (VObj fs) => foldl decode_T "" fs
  | _ => ""
  end.

(** [negotiateConnection]: the body of the request and the id that
    [generateConnectionID] returns; the result is the JSON written back,
    the object of [negotiationResponse]. *)
Definition negotiateConnection (body : payload) (cID : string) : M value :=
  id ← addClient cID (unmarshal_negotiation body);
  ret (VObj [("ConnectionID", VStr id)]).

(** [e.Relay(x)], with [t] the dynamic type of [x] and [cID] the id that
    [generateConnectionID] returns. *)
Definition Exchange_Relay (t : rtype) (cID : string) : M (option Relay) :=
  getRelayByName (type_Name t) cID.

(** ** The write loop of a connection (websocket-transport.go) *)


(** ** Routes (Exchange) *)

(** [strings.LastIndex(s, substr)]: the index of the last place where
    [substr] starts in [s], or -1. *)
Fixpoint last_index_from (substr s : string) (i best : Z) : Z :=
  let best' := if String.prefix substr s then i else best in
  match s with
  | EmptyString => best'
  | String _ s' => last_index_from substr s' (i + 1) best'
  end.

Definition LastIndex (s substr : string) : Z := last_index_from substr s 0 (-1).

Fixpoint string_drop (n : nat) (s : string) : string :=
  match n, s with
  | S n', String _ s' => string_drop n' s'
  | _, _ => s
  end.

Fixpoint string_take (n : nat) (s : string) : string :=
  match n, s with
  | S n', String a s' => String a (string_take n' s')
  | _, _ => EmptyString
  end.

(** [s[i:]] and [s[:i]]; [None] is the panic of a slice out of range. *)
Definition slice_from (s : string) (i : Z) : option string :=
  if bool_decide (0 ≤ i ≤ Z.of_nat (String.length s))
  then Some (string_drop (Z.to_nat i) s) else None.

Definition slice_to (s : string) (i : Z) : option string :=
  if bool_decide (0 ≤ i ≤ Z.of_nat (String.length s))
  then Some (string_take (Z.to_nat i) s) else None.

(** [extractOperationFromURL], on the path of the request. *)
Definition extractOperationFromURL (path : string) : option string :=
  slice_from path (LastIndex path "/" + 1).

(** The names of the four operations, constants declared in another file. *)
Record operations := {
  opWebSocket : string;
  opNegotiate : string;
  opLongPoll : string;
  opCallServer : string
}.

(** What [ServeHTTP] hands the request to. *)
Inductive route :=
| ToUpgradeWebSocket
| ToNegotiateConnection
| ToAwaitLongPoll
| ToCallServer
| ToWriteClientScript (baseURL route : string).

(** The [switch] of [ServeHTTP], for an exchange made with [mainURL], whose
    [mainURLWithoutScheme] is given; [None] is a panic. *)
Definition ServeHTTP (ops : operations) (mainURL mainURLWithoutScheme path : string)
    : option route :=
  match extractOperationFromURL path with
  | None => None
  | Some op =>
      if bool_decide (op = opWebSocket ops) then Some ToUpgradeWebSocket
      else if bool_decide (op = opNegotiate ops) then Some ToNegotiateConnection
      else if bool_decide (op = opLongPoll ops) then Some ToAwaitLongPoll
      else if bool_decide (op = opCallServer ops) then Some ToCallServer
      else
        match slice_to path (LastIndex path ("/" +:+ op)) with
        | Some dir => Some (ToWriteClientScript (mainURLWithoutScheme +:+ dir)
                                                (mainURL +:+ dir))
        | None => None
        end
  end.

(** ** The client script and its cache (Exchange) *)

(** The templates of the script and [lowerFirst], declared in another
    file; a template with format verbs is the function [fmt.Sprintf] makes
    of it. *)
Record templates := {
  connectionClassScript : string → string → string;
  relayClassBegin : string;
  relayBegin : string → string;
  relayMethod : string → string → string → string;
  relayEnd : string;
  relayClassEnd : string;
  lowerFirst : string → string
}.

(** The package variables [clientScript], [cacheEnabled] and
    [ClientScriptFunc] (nil when [None]). *)
Record scriptCache := {
  clientScript : string;
  cacheEnabled : bool;
  ClientScriptFunc : option (string → string)
}.

Definition DisableScriptCache (st : scriptCache) : scriptCache :=
  {| clientScript := clientScript st; cacheEnabled := false;
     ClientScriptFunc := ClientScriptFunc st |}.

(** What the [else] branch of [writeClientScript] collects in [buff]. *)
Definition scriptText (T : templates) (rs : list Relay) (baseURL route : string) : string :=
  connectionClassScript T baseURL route
  +:+ relayClassBegin T
  +:+ foldr (λ relay rest,
        relayBegin T (r_Name relay)
        +:+ foldr (λ method rest', relayMethod T (lowerFirst T method) (r_Name relay) method
                                   +:+ rest')
              (relayEnd T) (r_methods relay)
        +:+ rest) (relayClassEnd T) rs.

(** [writeClientScript]: what is copied to the response, and the package
    variables afterwards. *)
Definition writeClientScript (T : templates) (rs : list Relay) (baseURL route : string)
    (st : scriptCache) : string * scriptCache :=
  if bool_decide (0 < String.length (clientScript st))%nat && cacheEnabled st
  then (clientScript st, st)
  else
    let buff := scriptText T rs baseURL route in
    let result := match ClientScriptFunc st with
                  | Some f => f buff
                  | None => buff
                  end in
    (result, if cacheEnabled st
             then {| clientScript := result; cacheEnabled := cacheEnabled st;
                     ClientScriptFunc := ClientScriptFunc st |}
             else st).


(** * Vocabulary of the properties *)

(** The relay name resolves to a registered definition. *)
Definition registered (h : Hub) (name : string) : Prop :=
  ∃ d, d ∈ relays h ∧ r_Name d = name.

(** ** Groups *)

(** The connection ids of the client records in a member list. *)
Definition ids (l : list (option client)) : list string :=
  c_ConnectionID <$> omap id l.

(** The client records of a member list, nil entries left out. *)
Definition records (l : list (option client)) : list client := omap (λ p, p) l.

(** No two records of a group carry the same id. *)
Definition groups_ok (gs : gmap string (list (option client))) : Prop :=
  map_Forall (λ _ l, NoDup (ids l)) gs.

(** A run of [addToGroup] calls, each on the state the one before left,
    whether that one returned or panicked. *)
Fixpoint addToGroup_all (calls : list (string * string)) (h : Hub) : Hub :=
  match calls with
  | [] => h
  | (g, id) :: calls' => addToGroup_all calls' (addToGroup g id h).1
  end.

(** A member list with the first record that carries [cid] cut out. *)
Definition without (cid : string) (l : list (option client)) : list (option client) :=
  take (Z.to_nat (index_from 0 l cid)) l ++ drop (Z.to_nat (index_from 0 l cid + 1)) l.

(** The effect of [removeFromGroupByID(g, cid)] on the registry. *)
Definition drop_member (g cid : string) (gs : gmap string (list (option client)))
    : gmap string (list (option client)) :=
  if bool_decide (-1 < index_from 0 (members_of gs g) cid) then
    if bool_decide (length (without cid (members_of gs g)) = 0%nat)
    then delete g (<[g := without cid (members_of gs g)]> gs)
    else <[g := without cid (members_of gs g)]> gs
  else gs.

(** What is left of group [g] itself. *)
Definition left_of (cid : string) (o : option (list (option client)))
    : option (list (option client)) :=
  match o with
  | Some l =>
      if bool_decide (-1 < index_from 0 l cid) then
        if bool_decide (length (without cid l) = 0%nat) then None
        else Some (without cid l)
      else Some l
  | None => None
  end.

(** ** Queues and the log *)

(** How many times [ch] was closed, by the log. *)
Fixpoint closes (ch : nat) (tr : list event) : nat :=
  match tr with
  | [] => 0
  | Closed c :: tr' => (if bool_decide (c = ch) then 1 else 0) + closes ch tr'
  | _ :: tr' => closes ch tr'
  end.

(** A step that leaves the connection table alone, closes no channel and
    opens none again. *)
Definition undisturbed (h h' : Hub) : Prop :=
  connections h' = connections h
  ∧ (∀ ch, ch_closed (chan_at h' ch) = ch_closed (chan_at h ch))
  ∧ (∀ ch, closes ch (trace h') = closes ch (trace h)).

(** A computation all of whose runs are undisturbing, and which starts no
    goroutine that could end the process. *)
Definition calm {A} (m : M A) : Prop :=
  ∀ h, undisturbed h (m h).1 ∧ (m h).2 ≠ Fatal.

(** Every queue that the connection table refers to is open. *)
Definition sendable (h : Hub) : Prop :=
  ∀ cid o, connections h !! cid = Some o → ch_closed (chan_at h (conn_out o)) = false.

(** From [h] to [h'] the calls [evs] were handed to transports and nothing
    else happened to the exchange or to the connection table. *)
Definition handed_over (h h' : Hub) (evs : list event) : Prop :=
  relays h' = relays h ∧ groups h' = groups h ∧ connections h' = connections h
  ∧ sendable h' ∧ trace h' = trace h ++ evs.

(** One call for each of the clients [cs], through the transport it has. *)
Definition calls_to (name fn : string) (args : list value) (cs : list client)
    : list event :=
  omap (λ c, (λ k, Sent k name (c_ConnectionID c) fn args) <$> c_transport c) cs.

(** ** Small hubs to evaluate on *)

Module Sample.

(** [Broadcast(relay *Relay, msg string)], declared on [Chat]. *)
Definition Broadcast : method :=
  {| mname := "Broadcast";
     accepts := λ inputs, match inputs with
                          | [RelayPtr _ _; Iface (VStr _)] => true
                          | _ => false
                          end |}.

(** [Kick(relay *Relay)], declared on [*Chat]. *)
Definition Kick : method :=
  {| mname := "Kick";
     accepts := λ inputs, match inputs with
                          | [RelayPtr _ _] => true
                          | _ => false
                          end |}.

Definition Chat : rtype := Named "Chat" [Broadcast] [Kick].

(** A fresh exchange after [RegisterRelay(Chat{})]. *)
Definition hub : Hub := (RegisterRelay Chat (NewExchange 0)).1.

Definition envelope (server : bool) (relay fn : string) (args : list value) (cid : string)
    : payload :=
  Json (VObj [("S", VBool server); ("R", VStr relay); ("M", VStr fn);
              ("A", VArr args); ("C", VStr cid)]).

Definition conn1 : connection := {| conn_id := "c1"; conn_out := 1%nat |}.
Definition conn2 : connection := {| conn_id := "c2"; conn_out := 2%nat |}.

Definition ws_client (id : string) : option client :=
  Some {| c_ConnectionID := id; c_transport := Some WebSocket |}.

(** Two negotiated socket clients, both connected. *)
Definition hub2 : Hub :=
  let h1 := (addClient "c1" "websocket" hub).1 in
  let h2 := (addClient "c2" "websocket" h1).1 in
  let h3 := (listen_step (Connected conn1) h2).1 in
  (listen_step (Connected conn2) h3).1.

End Sample.

Module SampleCall.
Definition args : list value := [VStr "hi"; VNum 2].
Definition inbound : payload := Sample.envelope false "Chat" "Hello" args "c2".
Definition handle : Relay :=
  {| r_Name := "Chat"; r_ConnectionID := "c2"; r_t := Sample.Chat; r_methods := [] |}.
End SampleCall.

Module SampleGroups.
(** [c1] in "room" alone, and in "lobby" after [c2]. *)
Definition hub3 : Hub :=
  addToGroup_all [("room", "c1"); ("lobby", "c2"); ("lobby", "c1")] Sample.hub2.
End SampleGroups.

Module SampleBroadcast.
Definition handle (cid : string) : Relay :=
  {| r_Name := "Chat"; r_ConnectionID := cid; r_t := Sample.Chat; r_methods := [] |}.

(** "room" after [addToGroup("room", ghost)], for which there is no
    client, and [addToGroup("room", c2)]. *)
Definition with_nil_entry : Hub :=
  addToGroup_all [("room", "ghost"); ("room", "c2")] Sample.hub2.

(** "Global" after a negotiation that asked for a transport the exchange
    does not have, and one that asked for the socket transport. *)
Definition with_nil_transport : Hub :=
  (addClient "c2" "websocket" (addClient "c0" "telepathy" Sample.hub).1).1.
End SampleBroadcast.

Module SampleOrphan.
(** [c1] has joined "room" and was then taken out of "Global". *)
Definition left_global : Hub :=
  (removeFromGroupByID "Global" "c1" (addToGroup "room" "c1" Sample.hub2).1).1.
End SampleOrphan.

(** ** Running a computation by unfolding the monad *)

Ltac run := cbv [mbind M_bind bind ret get modify emit panic deref spawn first_of].

(** ** More vocabulary: what a computation leaves alone *)

(** The exchange's own data is as before. *)
Definition unchanged (h h' : Hub) : Prop :=
  relays h' = relays h ∧ groups h' = groups h ∧ verbosity h' = verbosity h.

(** A computation that never changes the relays, the groups or the
    verbosity, however it ends. *)
Definition gentle {A} (m : M A) : Prop := ∀ h, unchanged h (m h).1.

(** A computation that changes neither the exchange's data nor the
    connection table, closes no queue, and cannot end the process. *)
Definition harmless {A} (m : M A) : Prop := gentle m ∧ calm m.

(** No group of the registry is empty. *)
Definition no_empty_group (gs : gmap string (list (option client))) : Prop :=
  map_Forall (λ _ l, l ≠ []) gs.

(** ** More vocabulary: envelopes *)

(** The value is of the kind the field takes; [null] goes with every
    field. *)
Definition fits (f : field) (v : value) : bool :=
  match f, v with
  | _, VNull => true
  | FS, VBool _ => true
  | FR, VStr _ | FM, VStr _ | FC, VStr _ => true
  | FA, VArr _ => true
  | _, _ => false
  end.

(** The member is for no field of the envelope, or fits the field it is
    for. *)
Definition member_fits (kv : string * value) : bool :=
  match field_of_key kv.1 with
  | Some f => fits f kv.2
  | None => true
  end.

(** ** More vocabulary: paths *)

(** The string has no slash in it. *)
Fixpoint slash_free (s : string) : bool :=
  match s with
  | EmptyString => true
  | String a s' => if ascii_dec "/"%char a then false else slash_free s'
  end.

(** Sample operation names and script templates. *)
Module SampleRoutes.
Definition ops : operations :=
  {| opWebSocket := "ws"; opNegotiate := "negotiate"; opLongPoll := "longpoll";
     opCallServer := "call" |}.

Definition text : templates :=
  {| connectionClassScript := λ baseURL route, "conn(" +:+ baseURL +:+ "," +:+ route +:+ ");";
     relayClassBegin := "relays{";
     relayBegin := λ name, name +:+ ":{";
     relayMethod := λ lower name method, lower +:+ "=" +:+ name +:+ "." +:+ method +:+ ";";
     relayEnd := "}";
     relayClassEnd := "}";
     lowerFirst := λ s, s |}.

Definition fresh_cache : scriptCache :=
  {| clientScript := ""; cacheEnabled := true; ClientScriptFunc := None |}.
End SampleRoutes.

(** The script as it leaves [ClientScriptFunc], when there is one. *)
Definition finished (st : scriptCache) (text : string) : string :=
  match ClientScriptFunc st with
  | Some f => f text
  | None => text
  end.


(** * Properties *)

(** ** Resolving a relay name *)

Lemma find_name_None (rs : list Relay) name :
  (∀ d, d ∈ rs → r_Name d ≠ name) →
  find (λ r, bool_decide (r_Name r = name)) rs = None.
Proof.
  induction rs as [|d rs IH]; intros Hno; [done|].
  cbn. rewrite bool_decide_eq_false_2; [|apply Hno; left].
  apply IH. intros d' Hd'. apply Hno. by right.
Qed.

Lemma getRelayByName_unregistered h name cID :
  ¬ registered h name → getRelayByName_in (relays h) name cID = None.
Proof.
  intros Hno. unfold getRelayByName_in. rewrite find_name_None; [done|].
  intros d Hd Hn. apply Hno. by exists d.
Qed.

Lemma callRelayMethod_nil fn args h : callRelayMethod None fn args h = (h, Panic).
Proof. reflexivity. Qed.

Lemma ws_CallClientFunction_nil fn args h :
  ws_CallClientFunction None fn args h = (h, Panic).
Proof. reflexivity. Qed.

(** An inbound server call over HTTP that names no registered relay brings
    the process down: the missing definition is dereferenced in a goroutine
    of its own. *)
Lemma callServer_unregistered h body cid cids :
  ¬ registered h (m_Relay (unmarshal body).1) →
  callServer body (cid :: cids) h = (h, Fatal).
Proof.
  intros Hno. unfold callServer, getRelayByName. run.
  rewrite getRelayByName_unregistered by done. reflexivity.
Qed.

(** The same message on a socket panics in the goroutine of the read loop,
    whichever way the envelope points. *)
Lemma read_message_unregistered h c p :
  (unmarshal p).2 = true →
  ¬ registered h (m_Relay (unmarshal p).1) →
  read_message c p h = (h, Panic).
Proof.
  intros Hok Hno. unfold read_message, getRelayByName.
  destruct (unmarshal p) as [m ok]. cbn in *. subst ok. run.
  rewrite getRelayByName_unregistered by done.
  destruct (m_Server m); reflexivity.
Qed.

(** ** Dispatch of a server call *)

Lemma Sample_unregistered : ¬ registered Sample.hub "Nope".
Proof.
  intros (d & Hd & Hn). cbn in Hd. apply list_elem_of_singleton in Hd.
  subst d. discriminate Hn.
Qed.

(** C1. An inbound call that names a relay which is not registered is not
    turned away: [getRelayByName] returns nil and [callRelayMethod] reads
    [relay.t] through it.  On the HTTP path the dereference happens in a
    goroutine started with [go], which ends the process; on the socket path
    it panics inside the read loop. *)
Theorem unknown_relay_is_dereferenced :
  callServer (Sample.envelope true "Nope" "Broadcast" [VStr "hi"] "c1") ["c1"] Sample.hub
    = (Sample.hub, Fatal)
  ∧ read_message Sample.conn1 (Sample.envelope true "Nope" "Broadcast" [VStr "hi"] "c1")
      Sample.hub
    = (Sample.hub, Panic).
Proof.
  split.
  - apply callServer_unregistered. exact Sample_unregistered.
  - apply read_message_unregistered; [reflexivity | exact Sample_unregistered].
Qed.

Lemma MethodByName_name vt fn m : MethodByName vt fn = Some m → mname m = fn.
Proof.
  unfold MethodByName. intros Hf. apply find_some in Hf as [_ Hb].
  by apply bool_decide_eq_true in Hb.
Qed.

Lemma find_name_Some (ms : list method) fn :
  fn ∈ map mname ms → is_Some (find (λ m, bool_decide (mname m = fn)) ms).
Proof.
  induction ms as [|m ms IH]; cbn; intros Hin.
  - by apply elem_of_nil in Hin.
  - destruct (bool_decide (mname m = fn)) eqn:E; [by eexists|].
    apply IH. apply elem_of_cons in Hin as [->|]; [|done].
    by apply bool_decide_eq_false in E.
Qed.

(** Every name collected at registration from a named type is found on a
    fresh instance of it. *)
Lemma registered_name_found name vm pm fn :
  fn ∈ getMethodsForType (Named name vm pm) →
  is_Some (MethodByName (reflect_New (Named name vm pm)) fn).
Proof.
  unfold getMethodsForType, MethodByName, reflect_New. cbn. intros Hin.
  apply find_name_Some. rewrite map_app. apply elem_of_app. by left.
Qed.

Lemma getRelayByName_in_Some rs name cID r :
  getRelayByName_in rs name cID = Some r →
  r_Name r = name ∧ r_ConnectionID r = cID ∧
  ∃ d, find (λ r, bool_decide (r_Name r = name)) rs = Some d ∧ r_t r = r_t d.
Proof.
  unfold getRelayByName_in. destruct (find _ rs) as [d|] eqn:E; [|done].
  intros [= <-]. cbn. eauto.
Qed.

(** C2, as the code has it.  A server call is dispatched on the method set
    of a pointer to the relay's type: a name found there, with inputs that
    the method takes, is invoked once, the handle first and the arguments
    after it in order; a name not found there is an [UnknownMethod] error
    and nothing is invoked.  The names registered for a named type are all
    found there. *)
Theorem dispatch_on_pointer_method_set (h : Hub) (name cID fn : string)
    (args : list value) (r : Relay)
    (Hr : getRelayByName_in (relays h) name cID = Some r) :
  (∀ m, MethodByName (reflect_New (r_t r)) fn = Some m →
        accepts m (RelayPtr name cID :: map Iface args) = true →
        callRelayMethod (Some r) fn args h
        = (set_trace (λ tr, tr ++ [Invoked (type_Name (r_t r)) fn
                                     (RelayPtr name cID :: map Iface args)]) h,
           Ok None))
  ∧ (MethodByName (reflect_New (r_t r)) fn = None →
     callRelayMethod (Some r) fn args h = (h, Ok (Some (UnknownMethod fn name))))
  ∧ (∀ tn vm pm, r_t r = Named tn vm pm →
     fn ∈ getMethodsForType (r_t r) →
     is_Some (MethodByName (reflect_New (r_t r)) fn)).
Proof.
  apply getRelayByName_in_Some in Hr as (Hn & Hc & _).
  split; [|split].
  - intros m Hm Hacc. unfold callRelayMethod, buildArgValues. run.
    rewrite Hm, Hn, Hc, Hacc. by rewrite (MethodByName_name _ _ _ Hm).
  - intros Hm. unfold callRelayMethod. run. by rewrite Hm, Hn.
  - intros tn vm pm Ht Hin. rewrite Ht in *. by apply registered_name_found.
Qed.

Lemma dispatch_on_pointer_method_set_witness :
  getRelayByName_in (relays Sample.hub) "Chat" "c1"
    = Some {| r_Name := "Chat"; r_ConnectionID := "c1"; r_t := Sample.Chat; r_methods := [] |}
  ∧ callRelayMethod (getRelayByName_in (relays Sample.hub) "Chat" "c1") "Broadcast"
      [VStr "hi"] Sample.hub
    = (set_trace (λ tr, tr ++ [Invoked "Chat" "Broadcast" [RelayPtr "Chat" "c1"; Iface (VStr "hi")]])
         Sample.hub, Ok None).
Proof.
  split; [reflexivity|].
  apply (proj1 (dispatch_on_pointer_method_set Sample.hub "Chat" "c1" "Broadcast" [VStr "hi"]
           {| r_Name := "Chat"; r_ConnectionID := "c1"; r_t := Sample.Chat; r_methods := [] |}
           eq_refl) Sample.Broadcast); reflexivity.
Defined.

(** C2, as stated, fails: [Kick] has a pointer receiver, so it is not among
    the names collected when [Chat{}] is registered, and a server call
    invokes it all the same. *)
Lemma unregistered_method_invoked :
  map r_methods (relays Sample.hub) = [["Broadcast"]]
  ∧ callRelayMethod (getRelayByName_in (relays Sample.hub) "Chat" "c1") "Kick" [] Sample.hub
    = (set_trace (λ tr, tr ++ [Invoked "Chat" "Kick" [RelayPtr "Chat" "c1"]]) Sample.hub,
       Ok None).
Proof. split; reflexivity. Qed.

(** ** The socket transport: delivery and the read loop *)

(** C7. An outbound call for a connection id that is not in the table of
    the socket transport changes nothing and returns normally: nothing is
    queued for anyone, and the caller is told nothing. *)
Theorem delivery_miss_is_silent (h : Hub) (r : Relay) (fn : string) (args : list value) :
  connections h !! r_ConnectionID r = None →
  ws_CallClientFunction (Some r) fn args h = (h, Ok tt).
Proof. intros Hmiss. unfold ws_CallClientFunction. run. by rewrite Hmiss. Qed.

Lemma delivery_miss_is_silent_witness :
  ws_CallClientFunction (getRelayByName_in (relays Sample.hub2) "Chat" "c9") "Hello"
    [VStr "hi"] Sample.hub2
  = (Sample.hub2, Ok tt).
Proof.
  apply (delivery_miss_is_silent Sample.hub2
           {| r_Name := "Chat"; r_ConnectionID := "c9"; r_t := Sample.Chat; r_methods := [] |}).
  reflexivity.
Defined.

Lemma read_message_undecodable c p h :
  (unmarshal p).2 = false → read_message c p h = (h, Ok tt).
Proof.
  intros Hbad. unfold read_message. destruct (unmarshal p) as [m ok].
  cbn in Hbad. by subst ok.
Qed.

(** C8. A message that does not decode is dropped: the hub is left as it
    was (nothing is dispatched, the connection is neither closed nor taken
    out of the table) and the loop goes on with the messages that follow. *)
Theorem undecodable_message_is_dropped (c : connection) (p : payload)
    (rest : list payload) (h : Hub) :
  (unmarshal p).2 = false →
  read_message c p h = (h, Ok tt)
  ∧ read_loop c (p :: rest) h = read_loop c rest h
  ∧ read c (p :: rest) h = read c rest h.
Proof.
  intros Hbad. pose proof (read_message_undecodable c p h Hbad) as E.
  assert (read_loop c (p :: rest) h = read_loop c rest h) as El.
  { cbn [read_loop]. unfold mbind, M_bind, bind. by rewrite E. }
  split; [done|]. split; [done|].
  unfold read, deferred, mbind, M_bind, bind. by rewrite El.
Qed.

Lemma undecodable_message_is_dropped_witness :
  read_message Sample.conn1 Garbage Sample.hub2 = (Sample.hub2, Ok tt)
  ∧ read_loop Sample.conn1 [Garbage; Json (VNum 3)] Sample.hub2
    = read_loop Sample.conn1 [Json (VNum 3)] Sample.hub2
  ∧ read Sample.conn1 [Garbage; Json (VNum 3)] Sample.hub2
    = read Sample.conn1 [Json (VNum 3)] Sample.hub2.
Proof.
  apply (undecodable_message_is_dropped Sample.conn1 Garbage [Json (VNum 3)] Sample.hub2).
  reflexivity.
Defined.


Lemma chan_send_open ch msg h :
  ch_closed (chan_at h ch) = false →
  chan_send ch msg h
  = (set_chans (<[ch := {| ch_buf := ch_buf (chan_at h ch) ++ [msg]; ch_closed := false |}]>) h,
     Ok tt).
Proof. intros Hopen. unfold chan_send. run. by rewrite Hopen. Qed.




(** ** The group registry *)

Lemma ids_cons_Some c l : ids (Some c :: l) = c_ConnectionID c :: ids l.
Proof. reflexivity. Qed.

Lemma ids_cons_None l : ids (None :: l) = ids l.
Proof. reflexivity. Qed.

Lemma ids_app l1 l2 : ids (l1 ++ l2) = ids l1 ++ ids l2.
Proof. unfold ids. by rewrite omap_app, fmap_app. Qed.

Lemma index_from_absent i l id : id ∉ ids l → index_from i l id = -1.
Proof.
  revert i. induction l as [|[c|] l IH]; intros i Hno; cbn; [done| |].
  - rewrite ids_cons_Some in Hno. apply not_elem_of_cons in Hno as [Hne Hno].
    rewrite bool_decide_eq_false_2 by done. by apply IH.
  - apply IH. by rewrite ids_cons_None in Hno.
Qed.

(** The index returned for a member: the position of the first record with
    that id. *)
Lemma index_from_present i l id :
  id ∈ ids l →
  ∃ n c, index_from i l id = i + Z.of_nat n
         ∧ l !! n = Some (Some c) ∧ c_ConnectionID c = id
         ∧ id ∉ ids (take n l).
Proof.
  revert i. induction l as [|[c|] l IH]; intros i Hin.
  - by apply elem_of_nil in Hin.
  - cbn [index_from]. destruct (bool_decide (c_ConnectionID c = id)) eqn:E.
    + apply bool_decide_eq_true in E. exists 0%nat, c.
      repeat split; [lia|done|]. cbn. apply not_elem_of_nil.
    + apply bool_decide_eq_false in E. rewrite ids_cons_Some in Hin.
      apply elem_of_cons in Hin as [Heq|Hin]; [congruence|].
      destruct (IH (i + 1) Hin) as (n & c' & Hi & Hl & Hc & Hno).
      exists (S n), c'. repeat split; [lia|done|done|].
      cbn [take]. rewrite ids_cons_Some. by apply not_elem_of_cons.
  - cbn [index_from]. rewrite ids_cons_None in Hin.
    destruct (IH (i + 1) Hin) as (n & c' & Hi & Hl & Hc & Hno).
    exists (S n), c'. repeat split; [lia|done|done|].
    cbn [take]. by rewrite ids_cons_None.
Qed.

Lemma index_from_member l id : index_from 0 l id ≠ -1 ↔ id ∈ ids l.
Proof.
  split.
  - intros Hne. destruct (decide (id ∈ ids l)) as [|Hno]; [done|].
    by apply (index_from_absent 0) in Hno.
  - intros Hin. destruct (index_from_present 0 l id Hin) as (n & _ & -> & _). lia.
Qed.

(** *** Adding to a group *)

Lemma logClients_cons_Some c l h : logClients (Some c :: l) h = logClients l h.
Proof. reflexivity. Qed.

Lemma logClients_cons_None l h : logClients (None :: l) h = (h, Panic).
Proof. reflexivity. Qed.

Lemma logClients_state l h : (logClients l h).1 = h.
Proof.
  induction l as [|[c|] l IH]; [done| |done].
  by rewrite logClients_cons_Some.
Qed.

Lemma getClientByConnectionID_in_state l cID h :
  (getClientByConnectionID_in l cID h).1 = h.
Proof.
  induction l as [|[c|] l IH]; cbn; [done| |done].
  run. destruct (bool_decide _); [done|]. apply IH.
Qed.

(** What the lookup in "Global" returns when it returns: nil, or a record
    with the id that was asked for. *)
Lemma getClientByConnectionID_in_result l cID h h' p :
  getClientByConnectionID_in l cID h = (h', Ok p) →
  match p with
  | Some c => c_ConnectionID c = cID
  | None => (cID ∉ ids l) ∧ (None ∉ l)
  end.
Proof.
  induction l as [|[c|] l IH]; cbn [getClientByConnectionID_in].
  - intros [= _ <-]. split; apply not_elem_of_nil.
  - run. destruct (bool_decide (c_ConnectionID c = cID)) eqn:E.
    + intros [= _ <-]. by apply bool_decide_eq_true in E.
    + apply bool_decide_eq_false in E. intros Hl. specialize (IH Hl).
      destruct p; [done|]. destruct IH as [Hno Hnil]. split.
      * rewrite ids_cons_Some. by apply not_elem_of_cons.
      * apply not_elem_of_cons. by split.
  - discriminate.
Qed.

Lemma getClientByConnectionID_in_absent l cID h :
  cID ∉ ids l → None ∉ l → getClientByConnectionID_in l cID h = (h, Ok None).
Proof.
  induction l as [|[c|] l IH]; intros Hno Hnil; cbn; [done| |].
  - rewrite ids_cons_Some in Hno. apply not_elem_of_cons in Hno as [Hne Hno].
    apply not_elem_of_cons in Hnil as [_ Hnil].
    run. rewrite bool_decide_eq_false_2 by done. by apply IH.
  - exfalso. apply Hnil. left.
Qed.

(** [addToGroup] when the id is already in the group: the hub stays as it
    is, whatever the logging does. *)
Lemma addToGroup_member g id h :
  id ∈ ids (members_of (groups h) g) → (addToGroup g id h).1 = h.
Proof.
  intros Hin. apply index_from_member in Hin.
  unfold addToGroup, getClientIndexInGroup. run.
  rewrite bool_decide_eq_false_2 by done.
  destruct (verbose h); [apply logClients_state|done].
Qed.

(** [addToGroup] when the id is not in the group: the state it leaves is
    the one it found, or that one with the result of the lookup appended:
    a record with the id, or nil when "Global" has no record with it. *)
Lemma addToGroup_absent g id h :
  id ∉ ids (members_of (groups h) g) →
  (addToGroup g id h).1 = h
  ∨ ∃ p, (addToGroup g id h).1
         = set_groups (<[g := members_of (groups h) g ++ [p]]>) h
         ∧ match p with
           | Some c => c_ConnectionID c = id
           | None => id ∉ ids (members_of (groups h) "Global")
           end.
Proof.
  intros Hno. apply (index_from_absent 0) in Hno.
  unfold addToGroup, getClientIndexInGroup, getClientByConnectionID. run.
  rewrite bool_decide_eq_true_2 by done.
  pose proof (getClientByConnectionID_in_state (members_of (groups h) "Global") id h) as Hst.
  destruct (getClientByConnectionID_in _ id h) as [h1 [p| |]] eqn:E; cbn in Hst; subst h1.
  - right. exists p. split.
    + destruct (verbose _); [apply logClients_state|done].
    + apply getClientByConnectionID_in_result in E. destruct p; [done|]. by destruct E.
  - by left.
  - by left.
Qed.

(** A second [addToGroup] for the id of a client of "Global" adds nothing
    to what the first one left. *)
Lemma addToGroup_twice g id h :
  id ∈ ids (members_of (groups h) "Global") →
  (addToGroup g id (addToGroup g id h).1).1 = (addToGroup g id h).1.
Proof.
  intros Hglobal. destruct (decide (id ∈ ids (members_of (groups h) g))) as [Hin|Hno].
  - rewrite (addToGroup_member g id h Hin). exact (addToGroup_member g id h Hin).
  - destruct (addToGroup_absent g id h Hno) as [Hsame|([c|] & -> & Hp)]; [| |done].
    { rewrite Hsame. exact Hsame. }
    apply addToGroup_member.
    assert (members_of (groups (set_groups (<[g := members_of (groups h) g ++ [Some c]]>) h)) g
            = members_of (groups h) g ++ [Some c]) as ->.
    { unfold members_of at 1. cbn [groups set_groups]. by rewrite lookup_insert_eq. }
    rewrite ids_app, ids_cons_Some, Hp. apply elem_of_app. right. left.
Qed.

Lemma addToGroup_groups_ok g id h :
  groups_ok (groups h) → groups_ok (groups (addToGroup g id h).1).
Proof.
  intros Hok. destruct (decide (id ∈ ids (members_of (groups h) g))) as [Hin|Hno].
  - by rewrite addToGroup_member.
  - destruct (addToGroup_absent g id h Hno) as [->|(p & -> & Hp)]; [done|].
    cbn. apply map_Forall_insert_2; [|done].
    assert (NoDup (ids (members_of (groups h) g))) as Hnd.
    { unfold members_of. destruct (groups h !! g) as [l|] eqn:E; cbn.
      - by apply (Hok g l). - constructor. }
    rewrite ids_app. destruct p as [c|]; cbn.
    + apply NoDup_app. split; [done|]. split; [|apply NoDup_singleton].
      intros x Hx Hx'. apply list_elem_of_singleton in Hx'. subst x.
      by rewrite Hp in Hx.
    + by rewrite app_nil_r.
Qed.

(** C4. Whatever [addToGroup] calls are made, no group comes to hold two
    records with one connection id; a call for an id that some record of
    the group already carries leaves the hub as it is, nothing being
    appended; and so a second call for the id of a client adds nothing to
    the first.  Membership is decided on the id of the records alone. *)
Theorem addToGroup_at_most_once (h : Hub) (calls : list (string * string))
    (g id : string) :
  (groups_ok (groups h) → groups_ok (groups (addToGroup_all calls h)))
  ∧ (id ∈ ids (members_of (groups h) g) → (addToGroup g id h).1 = h)
  ∧ (id ∈ ids (members_of (groups h) "Global") →
     (addToGroup g id (addToGroup g id h).1).1 = (addToGroup g id h).1).
Proof.
  split; [|split; [apply addToGroup_member|apply addToGroup_twice]].
  revert h. induction calls as [|[g' id'] calls IH]; intros h Hok; [done|].
  cbn. apply IH. by apply addToGroup_groups_ok.
Qed.

Lemma Sample_hub2_groups_ok : groups_ok (groups Sample.hub2).
Proof. unfold groups_ok. apply (bool_decide_unpack _). vm_compute. exact I. Defined.

Lemma addToGroup_at_most_once_witness :
  groups_ok (groups (addToGroup_all [("room", "c1"); ("room", "c1"); ("room", "ghost")]
                       Sample.hub2))
  ∧ (addToGroup "Global" "c1" Sample.hub2).1 = Sample.hub2
  ∧ (addToGroup "room" "c1" (addToGroup "room" "c1" Sample.hub2).1).1
    = (addToGroup "room" "c1" Sample.hub2).1.
Proof.
  assert ("c1" ∈ ids (members_of (groups Sample.hub2) "Global")) as Hc1.
  { apply (bool_decide_unpack _). vm_compute. exact I. }
  destruct (addToGroup_at_most_once Sample.hub2
              [("room", "c1"); ("room", "c1"); ("room", "ghost")] "Global" "c1")
    as (Hinv & Hnoop & _).
  destruct (addToGroup_at_most_once Sample.hub2 [] "room" "c1") as (_ & _ & Htwice).
  split; [|split].
  - apply Hinv. exact Sample_hub2_groups_ok.
  - apply Hnoop. exact Hc1.
  - apply Htwice. exact Hc1.
Defined.

(** *** Nil entries *)

Lemma for_each_skips_nil (f : client → M unit) l h :
  for_each (λ p, match p with None => ret tt | Some c => f c end) l h
  = for_each f (records l) h.
Proof.
  revert h. induction l as [|[c|] l IH]; intros h; [done| |].
  - change (records (Some c :: l)) with (c :: records l).
    cbn [for_each]. unfold mbind, M_bind, bind.
    destruct (f c h) as [h' [[]| |]]; [apply IH|done|done].
  - apply IH.
Qed.

(** A broadcast to a group is the loop over its client records. *)
Lemma callGroupMethod_records relay group fn args l h :
  groups h !! group = Some l →
  callGroupMethod relay group fn args h
  = for_each (callGroupClient relay fn args) (records l) h.
Proof.
  intros Hg. unfold callGroupMethod. run. rewrite Hg. apply for_each_skips_nil.
Qed.

(** C9, as the code has it.  When "Global" holds records only, none of them
    with the id, and the group has no record with the id either,
    [addToGroup] appends a nil entry to the group; it returns normally when
    logging is off.  A broadcast with [callGroupMethod] passes over nil
    entries: it is the loop over the records of the group. *)
Theorem addToGroup_unknown_id_appends_nil (h : Hub) (g cid : string)
    (Hglobal : cid ∉ ids (members_of (groups h) "Global"))
    (Hrecords : None ∉ members_of (groups h) "Global")
    (Hgroup : cid ∉ ids (members_of (groups h) g)) :
  (addToGroup g cid h).1 = set_groups (<[g := members_of (groups h) g ++ [None]]>) h
  ∧ (verbose h = false → (addToGroup g cid h).2 = Ok tt)
  ∧ (∀ relay group fn args l h',
       groups h' !! group = Some l →
       callGroupMethod relay group fn args h'
       = for_each (callGroupClient relay fn args) (records l) h').
Proof.
  apply (index_from_absent 0) in Hgroup.
  split; [|split].
  - unfold addToGroup, getClientIndexInGroup, getClientByConnectionID. run.
    rewrite bool_decide_eq_true_2 by done.
    rewrite getClientByConnectionID_in_absent by done.
    destruct (verbose _); [apply logClients_state|done].
  - intros Hquiet.
    unfold addToGroup, getClientIndexInGroup, getClientByConnectionID. run.
    rewrite bool_decide_eq_true_2 by done.
    rewrite getClientByConnectionID_in_absent by done.
    match goal with
    | |- context [verbose (set_groups ?f h)] =>
        change (verbose (set_groups f h)) with (verbose h)
    end.
    by rewrite Hquiet.
  - intros. by apply callGroupMethod_records.
Qed.

Lemma addToGroup_unknown_id_appends_nil_witness :
  (addToGroup "room" "ghost" Sample.hub2).1
  = set_groups (<["room" := [None]]>) Sample.hub2
  ∧ (addToGroup "room" "ghost" Sample.hub2).2 = Ok tt.
Proof.
  assert ("ghost" ∉ ids (members_of (groups Sample.hub2) "Global")) as H1.
  { apply (bool_decide_unpack _). vm_compute. exact I. }
  assert (None ∉ members_of (groups Sample.hub2) "Global") as H2.
  { intros Hin. vm_compute in Hin. apply elem_of_cons in Hin as [|Hin]; [done|].
    apply elem_of_cons in Hin as [|Hin]; [done|]. by apply elem_of_nil in Hin. }
  assert ("ghost" ∉ ids (members_of (groups Sample.hub2) "room")) as H3.
  { apply (bool_decide_unpack _). vm_compute. exact I. }
  destruct (addToGroup_unknown_id_appends_nil Sample.hub2 "room" "ghost" H1 H2 H3)
    as (Hst & Hok & _).
  split; [exact Hst | exact (Hok eq_refl)].
Defined.

(** C9, as stated, fails.  With no record for [c1] in "Global" but one in
    "room", [addToGroup("room", c1)] appends nothing; and with logging on,
    [addToGroup("room", ghost)] on a fresh exchange appends the nil entry
    and then panics in the loop that logs the members. *)
Lemma addToGroup_unknown_id_not_appended :
  (("c1" ∉ ids (members_of (groups SampleOrphan.left_global) "Global"))
   ∧ members_of (groups SampleOrphan.left_global) "room" = [Sample.ws_client "c1"]
   ∧ addToGroup "room" "c1" SampleOrphan.left_global = (SampleOrphan.left_global, Ok tt))
  ∧ (("ghost" ∉ ids (members_of (groups (NewExchange 1)) "Global"))
     ∧ addToGroup "room" "ghost" (NewExchange 1)
       = (set_groups (<["room" := [None]]>) (NewExchange 1), Panic)).
Proof.
  split; split.
  - apply (bool_decide_unpack _). vm_compute. exact I.
  - split; reflexivity.
  - apply not_elem_of_nil.
  - reflexivity.
Qed.

(** *** Removing from groups *)

Lemma removeFromGroupByID_run g cid h :
  removeFromGroupByID g cid h = (set_groups (drop_member g cid) h, Ok tt).
Proof.
  unfold removeFromGroupByID, getClientIndexInGroup, drop_member, without. run.
  destruct h as [rs gs v cs chs tr]. unfold set_groups. cbn.
  destruct (bool_decide (-1 < _)); [|done].
  by destruct (bool_decide (length _ = 0%nat)).
Qed.

Lemma removeFromAllGroups_over_run ks cid h :
  removeFromAllGroups_over ks cid h
  = (set_groups (λ gs, foldl (λ gs g, drop_member g cid gs) gs ks) h, Ok tt).
Proof.
  unfold removeFromAllGroups_over. revert h.
  induction ks as [|k ks IH]; intros h.
  - by destruct h.
  - cbn [for_each foldl]. unfold mbind, M_bind, bind.
    rewrite removeFromGroupByID_run, IH. by destruct h.
Qed.

Lemma drop_member_lookup_ne g g' cid gs :
  g ≠ g' → drop_member g cid gs !! g' = gs !! g'.
Proof.
  intros Hne. unfold drop_member.
  destruct (bool_decide (-1 < _)); [|done].
  destruct (bool_decide (length _ = 0%nat)).
  - by rewrite lookup_delete_ne, lookup_insert_ne.
  - by rewrite lookup_insert_ne.
Qed.

Lemma drop_member_lookup g cid gs :
  drop_member g cid gs !! g = left_of cid (gs !! g).
Proof.
  unfold drop_member, left_of, members_of.
  destruct (gs !! g) as [l|] eqn:E; cbn.
  - destruct (bool_decide (-1 < _)); [|done].
    destruct (bool_decide (length _ = 0%nat)).
    + by rewrite lookup_delete_eq.
    + by rewrite lookup_insert_eq.
  - done.
Qed.

Lemma drop_members_lookup ks g cid gs :
  NoDup ks →
  foldl (λ gs g, drop_member g cid gs) gs ks !! g
  = if decide (g ∈ ks) then left_of cid (gs !! g) else gs !! g.
Proof.
  revert gs. induction ks as [|k ks IH]; intros gs Hnd.
  - cbn. destruct (decide (g ∈ [])) as [Hin|]; [|done]. by apply elem_of_nil in Hin.
  - apply NoDup_cons in Hnd as [Hk Hnd]. cbn [foldl]. rewrite IH by done.
    destruct (decide (g ∈ ks)) as [Hin|Hno].
    + assert (k ≠ g) by (intros ->; done).
      rewrite drop_member_lookup_ne by done.
      rewrite decide_True; [done|by right].
    + destruct (decide (k = g)) as [->|Hne].
      * rewrite drop_member_lookup. rewrite decide_True; [done|left].
      * rewrite drop_member_lookup_ne by done.
        rewrite decide_False; [done|]. intros Hin.
        apply elem_of_cons in Hin as [->|]; done.
Qed.

Lemma without_absent cid l : cid ∉ ids l → left_of cid (Some l) = Some l.
Proof.
  intros Hno. unfold left_of. rewrite (index_from_absent 0) by done.
  by rewrite bool_decide_eq_false_2 by lia.
Qed.

Lemma without_present cid l :
  cid ∈ ids l →
  ∃ n c, l !! n = Some (Some c) ∧ c_ConnectionID c = cid
         ∧ (cid ∉ ids (take n l))
         ∧ without cid l = take n l ++ drop (S n) l
         ∧ (-1 < index_from 0 l cid).
Proof.
  intros Hin. destruct (index_from_present 0 l cid Hin) as (n & c & Hi & Hl & Hc & Hno).
  exists n, c. repeat split; [done|done|done| |lia].
  unfold without. rewrite Hi. f_equal; f_equal; lia.
Qed.

Lemma without_clears cid l : NoDup (ids l) → cid ∉ ids (without cid l).
Proof.
  intros Hnd. destruct (decide (cid ∈ ids l)) as [Hin|Hno].
  - destruct (without_present cid l Hin) as (n & c & Hl & Hc & Hno & -> & _).
    rewrite <- (take_drop_middle l n (Some c)) in Hnd by done.
    rewrite ids_app, ids_cons_Some, Hc in Hnd.
    apply NoDup_app in Hnd as (_ & _ & Hnd). apply NoDup_cons in Hnd as [Hd _].
    rewrite ids_app. intros Hx. apply elem_of_app in Hx as [|]; done.
  - unfold without. rewrite (index_from_absent 0) by done. cbn.
    by rewrite drop_0.
Qed.

Lemma left_of_clears cid l l' :
  NoDup (ids l) → left_of cid (Some l) = Some l' → cid ∉ ids l'.
Proof.
  intros Hnd. unfold left_of.
  destruct (bool_decide (-1 < index_from 0 l cid)) eqn:E.
  - destruct (bool_decide (length _ = 0%nat)); [done|].
    intros [= <-]. by apply without_clears.
  - intros [= <-]. apply bool_decide_eq_false in E.
    intros Hin. apply index_from_member in Hin.
    destruct (index_from_present 0 l cid) as (n & _ & Hi & _);
      [by apply index_from_member|]. lia.
Qed.

Lemma left_of_single cid c :
  c_ConnectionID c = cid → left_of cid (Some [Some c]) = None.
Proof.
  intros Hc. unfold left_of, without. cbn [index_from].
  rewrite (bool_decide_eq_true_2 (c_ConnectionID c = cid)) by done. reflexivity.
Qed.

Lemma left_of_nonempty cid l : left_of cid (Some l) = Some [] → l = [].
Proof.
  unfold left_of. destruct (bool_decide (-1 < _)).
  - destruct (bool_decide (length (without cid l) = 0%nat)) eqn:E; [done|].
    intros [= Hw]. apply bool_decide_eq_false in E. by rewrite Hw in E.
  - by intros [= ->].
Qed.

(** C5. [removeFromAllGroups(cid)], in whatever order the groups are
    visited, returns normally and touches the registry only.  Afterwards a
    group in which no two records shared an id has no record with [cid]; a
    group that had none is as it was; a group whose only entry was the
    record is gone, and no group is left with an empty member list by a
    removal. *)
Theorem removeFromAllGroups_clears (h : Hub) (ks : list string) (cid : string)
    (Hks : ks ≡ₚ (map_to_list (groups h)).*1) :
  ∃ gs',
    removeFromAllGroups_over ks cid h = (set_groups (λ _, gs') h, Ok tt)
    ∧ (∀ g l l', groups h !! g = Some l → NoDup (ids l) →
                 gs' !! g = Some l' → cid ∉ ids l')
    ∧ (∀ g, cid ∉ ids (members_of (groups h) g) → gs' !! g = groups h !! g)
    ∧ (∀ g c, groups h !! g = Some [Some c] → c_ConnectionID c = cid → gs' !! g = None)
    ∧ (∀ g, gs' !! g = Some [] → groups h !! g = Some []).
Proof.
  assert (NoDup ks) as Hnd.
  { rewrite Hks. apply NoDup_fst_map_to_list. }
  assert (∀ g, g ∈ ks ↔ is_Some (groups h !! g)) as Hin.
  { intros g. rewrite Hks. rewrite list_elem_of_fmap. split.
    - intros ([g' l] & -> & Hgl). apply elem_of_map_to_list in Hgl. by exists l.
    - intros [l Hl]. exists (g, l). split; [done|]. by apply elem_of_map_to_list. }
  exists (foldl (λ gs g, drop_member g cid gs) (groups h) ks).
  split; [by rewrite removeFromAllGroups_over_run|].
  assert (∀ g, foldl (λ gs g, drop_member g cid gs) (groups h) ks !! g
               = left_of cid (groups h !! g)) as Hl.
  { intros g. rewrite drop_members_lookup by done.
    destruct (decide (g ∈ ks)) as [|Hno]; [done|].
    destruct (groups h !! g) eqn:E; [|done].
    exfalso. apply Hno, Hin. by eexists. }
  repeat split.
  - intros g l l' Hg Hdup. rewrite Hl, Hg. by apply left_of_clears.
  - intros g Hno. rewrite Hl. unfold members_of in Hno.
    destruct (groups h !! g) as [l0|] eqn:E; [|done]. by apply without_absent.
  - intros g c Hg Hc. rewrite Hl, Hg. by apply left_of_single.
  - intros g. rewrite Hl. destruct (groups h !! g) as [l0|] eqn:E; [|done].
    intros Hleft. by rewrite (left_of_nonempty _ _ Hleft).
Qed.

Lemma removeFromAllGroups_run cid h :
  removeFromAllGroups cid h
  = (set_groups (λ gs, foldl (λ gs g, drop_member g cid gs) gs
                         (map_to_list (groups h)).*1) h, Ok tt).
Proof. unfold removeFromAllGroups. run. apply removeFromAllGroups_over_run. Qed.

Lemma removeFromAllGroups_clears_witness :
  ∃ gs',
    removeFromAllGroups "c1" SampleGroups.hub3
    = (set_groups (λ _, gs') SampleGroups.hub3, Ok tt)
    ∧ (∀ l', gs' !! "lobby" = Some l' → "c1" ∉ ids l')
    ∧ gs' !! "room" = None.
Proof.
  destruct (removeFromAllGroups_clears SampleGroups.hub3
              (map_to_list (groups SampleGroups.hub3)).*1 "c1" (Permutation_refl _))
    as (gs' & Hrun & Hclear & _ & Hgone & _).
  exists gs'. split; [exact Hrun|]. split.
  - intros l'. apply (Hclear "lobby" [Sample.ws_client "c2"; Sample.ws_client "c1"] l').
    + reflexivity.
    + apply (bool_decide_unpack _). vm_compute. exact I.
  - apply (Hgone "room" {| c_ConnectionID := "c1"; c_transport := Some WebSocket |});
      reflexivity.
Defined.

(** The invariant of the registry is kept by a removal, and by a
    negotiation that is given an id no client of "Global" has. *)
Lemma ids_sublist l1 l2 : l1 `sublist_of` l2 → ids l1 `sublist_of` ids l2.
Proof.
  induction 1 as [|[c|] l1 l2 _ IH|[c|] l1 l2 _ IH]; [constructor| | | |].
  - rewrite !ids_cons_Some. by constructor.
  - by rewrite !ids_cons_None.
  - rewrite ids_cons_Some. by constructor.
  - by rewrite ids_cons_None.
Qed.

Lemma without_sublist cid l : without cid l `sublist_of` l.
Proof.
  unfold without. destruct (decide (cid ∈ ids l)) as [Hin|Hno].
  - destruct (index_from_present 0 l cid Hin) as (n & _ & -> & _).
    replace (Z.to_nat (0 + Z.of_nat n)) with n by lia.
    replace (Z.to_nat (0 + Z.of_nat n + 1)) with (S n) by lia.
    rewrite <- delete_take_drop. apply sublist_delete.
  - rewrite (index_from_absent 0) by done. cbn. by rewrite drop_0.
Qed.

Lemma removeFromGroupByID_groups_ok g cid h :
  groups_ok (groups h) → groups_ok (groups (removeFromGroupByID g cid h).1).
Proof.
  intros Hok. rewrite removeFromGroupByID_run. cbn. unfold drop_member.
  destruct (bool_decide (-1 < _)); [|done].
  assert (NoDup (ids (without cid (members_of (groups h) g)))) as Hnd.
  { apply (sublist_NoDup _ (ids (members_of (groups h) g)));
      [|apply ids_sublist, without_sublist].
    unfold members_of. destruct (groups h !! g) as [l|] eqn:E; cbn.
    - by apply (Hok g l). - constructor. }
  destruct (bool_decide (length _ = 0%nat)).
  - apply map_Forall_delete. by apply map_Forall_insert_2.
  - by apply map_Forall_insert_2.
Qed.

Lemma addClient_groups_ok cID t h :
  cID ∉ ids (members_of (groups h) "Global") →
  groups_ok (groups h) → groups_ok (groups (addClient cID t h).1).
Proof.
  intros Hfresh Hok. cbn. apply map_Forall_insert_2; [|done].
  rewrite ids_app. apply NoDup_app. split; [|split].
  - unfold members_of. destruct (groups h !! "Global") as [l|] eqn:E; cbn.
    + by apply (Hok "Global" l). + constructor.
  - intros x Hx Hx'. apply list_elem_of_singleton in Hx'. by subst x.
  - apply NoDup_singleton.
Qed.

(** ** Disconnect notifications *)

Lemma closes_app ch tr1 tr2 : closes ch (tr1 ++ tr2) = (closes ch tr1 + closes ch tr2)%nat.
Proof.
  induction tr1 as [|ev tr1 IH]; [done|]. destruct ev; cbn; rewrite ?IH; lia.
Qed.

Lemma undisturbed_refl h : undisturbed h h.
Proof. by repeat split. Qed.

Lemma undisturbed_trans h1 h2 h3 :
  undisturbed h1 h2 → undisturbed h2 h3 → undisturbed h1 h3.
Proof.
  intros (Hc & Hf & Ht) (Hc' & Hf' & Ht'). repeat split.
  - congruence.
  - intros ch. by rewrite Hf', Hf.
  - intros ch. by rewrite Ht', Ht.
Qed.

Lemma calm_ret {A} (a : A) : calm (ret a).
Proof. intros h. split; [apply undisturbed_refl|done]. Qed.

Lemma calm_panic {A} : calm (@panic A).
Proof. intros h. split; [apply undisturbed_refl|done]. Qed.

Lemma calm_bind {A B} (m : M A) (k : A → M B) :
  calm m → (∀ a, calm (k a)) → calm (m ≫= k).
Proof.
  intros Hm Hk h. unfold mbind, M_bind, bind.
  destruct (Hm h) as [Hu Hr]. destruct (m h) as [h1 [a| |]]; cbn in *; [|done|done].
  destruct (Hk a h1) as [Hu' Hr']. split; [|done]. by eapply undisturbed_trans.
Qed.

Lemma calm_deref {A} (p : option A) : calm (deref p).
Proof. destruct p; [apply calm_ret|apply calm_panic]. Qed.

Lemma calm_emit ev : (∀ ch, ev ≠ Closed ch) → calm (emit ev).
Proof.
  intros Hev h. split; [|done]. repeat split. intros ch. cbn.
  rewrite closes_app. destruct ev; cbn; try lia. by destruct (Hev ch0).
Qed.

Lemma calm_chan_send ch msg : calm (chan_send ch msg).
Proof.
  intros h. unfold chan_send. run.
  destruct (ch_closed (chan_at h ch)) eqn:E; [split; [apply undisturbed_refl|done]|].
  split; [|done]. repeat split. intros ch'. cbn.
  unfold chan_at at 1. cbn. destruct (decide (ch = ch')) as [<-|Hne].
  - by rewrite lookup_insert_eq.
  - by rewrite lookup_insert_ne.
Qed.

Lemma calm_callRelayMethod relay fn args : calm (callRelayMethod relay fn args).
Proof.
  unfold callRelayMethod. apply calm_bind; [apply calm_deref|]. intros r.
  destruct (MethodByName _ fn) as [m|]; [|apply calm_ret].
  destruct (accepts m _); [|apply calm_panic].
  apply calm_bind; [by apply calm_emit|]. intros _. apply calm_ret.
Qed.

Lemma calm_ws_CallClientFunction relay fn args :
  calm (ws_CallClientFunction relay fn args).
Proof.
  unfold ws_CallClientFunction. apply calm_bind; [apply calm_deref|]. intros r h.
  run. destruct (connections h !! r_ConnectionID r); [apply calm_chan_send|].
  split; [apply undisturbed_refl|done].
Qed.

Lemma calm_getRelayByName name cID : calm (getRelayByName name cID).
Proof. intros h. split; [apply undisturbed_refl|done]. Qed.

Lemma calm_read_message c p : calm (read_message c p).
Proof.
  unfold read_message. destruct (unmarshal p) as [m [|]]; [|apply calm_ret].
  apply calm_bind; [apply calm_getRelayByName|]. intros relay.
  destruct (m_Server m).
  - apply calm_bind; [apply calm_callRelayMethod|]. intros _. apply calm_ret.
  - apply calm_ws_CallClientFunction.
Qed.

Lemma calm_read_loop c messages : calm (read_loop c messages).
Proof.
  induction messages as [|p ps IH]; [apply calm_ret|].
  cbn [read_loop]. apply calm_bind; [apply calm_read_message|]. by intros _.
Qed.

(** A disconnect notification for an id that is not in the table. *)
Lemma listen_step_absent conn h :
  connections h !! conn_id conn = None →
  listen_step (Disconnected conn) h = (h, Ok tt).
Proof. intros Hno. unfold listen_step. run. by rewrite Hno. Qed.


Lemma notify_absent conn h :
  connections h !! conn_id conn = None →
  notify (Disconnected conn) h = (h, Ok tt).
Proof. intros Hno. unfold notify, spawn. by rewrite listen_step_absent. Qed.




(** ** Calls to clients *)

(** C6 on the two inputs where the code falls short of it.  In a group
    with a nil entry [callGroupMethodExcept] dereferences the entry and
    panics before it reaches [c2], where [callGroupMethod] passes over it
    and calls [c2]; and a broadcast to "Global" panics on a client whose
    transport is nil, before it reaches [c2]. *)
Theorem broadcast_stops_at_nil :
  (members_of (groups SampleBroadcast.with_nil_entry) "room" = [None; Sample.ws_client "c2"]
   ∧ callGroupMethodExcept (Some (SampleBroadcast.handle "c1")) "room" "Hello" [VStr "hi"]
       SampleBroadcast.with_nil_entry
     = (SampleBroadcast.with_nil_entry, Panic)
   ∧ trace (callGroupMethod (Some (SampleBroadcast.handle "c1")) "room" "Hello" [VStr "hi"]
              SampleBroadcast.with_nil_entry).1
     = [Sent WebSocket "Chat" "c2" "Hello" [VStr "hi"]])
  ∧ (members_of (groups SampleBroadcast.with_nil_transport) "Global"
     = [Some {| c_ConnectionID := "c0"; c_transport := None |}; Sample.ws_client "c2"]
     ∧ callClientMethod (Some (SampleBroadcast.handle "")) "Hello" [VStr "hi"]
         SampleBroadcast.with_nil_transport
       = (SampleBroadcast.with_nil_transport, Panic)).
Proof. repeat split. Qed.

(** *** The broadcast policy where every entry is a client with a transport *)

Lemma calls_to_cons name fn args c cs k :
  c_transport c = Some k →
  calls_to name fn args (c :: cs)
  = Sent k name (c_ConnectionID c) fn args :: calls_to name fn args cs.
Proof. intros Hk. unfold calls_to. cbn. by rewrite Hk. Qed.

Lemma handed_over_nil h : sendable h → handed_over h h [].
Proof. intros Hs. repeat split; [done|]. by rewrite app_nil_r. Qed.

Lemma handed_over_app h1 h2 h3 evs1 evs2 :
  handed_over h1 h2 evs1 → handed_over h2 h3 evs2 → handed_over h1 h3 (evs1 ++ evs2).
Proof.
  intros (Hr & Hg & Hc & _ & Ht) (Hr' & Hg' & Hc' & Hs' & Ht').
  repeat split; [congruence|congruence|congruence|done|].
  by rewrite Ht', Ht, app_assoc.
Qed.

Lemma sendable_set_trace f h : sendable h → sendable (set_trace f h).
Proof. intros Hs cid o Ho. by apply (Hs cid o). Qed.

Lemma ws_CallClientFunction_sendable r fn args h :
  sendable h →
  ∃ h', ws_CallClientFunction (Some r) fn args h = (h', Ok tt) ∧ handed_over h h' [].
Proof.
  intros Hs. unfold ws_CallClientFunction. run.
  destruct (connections h !! r_ConnectionID r) as [o|] eqn:Ho.
  - rewrite chan_send_open by (by apply (Hs (r_ConnectionID r) o)).
    eexists. split; [reflexivity|]. repeat split; [|cbn; by rewrite app_nil_r].
    intros cid o' Ho'. cbn in Ho'. unfold chan_at. cbn.
    destruct (decide (conn_out o = conn_out o')) as [<-|Hne].
    + by rewrite lookup_insert_eq.
    + rewrite lookup_insert_ne by done. by apply (Hs cid o').
  - exists h. split; [done|]. by apply handed_over_nil.
Qed.

Lemma transport_CallClientFunction_sendable k r fn args h :
  sendable h →
  ∃ h', transport_CallClientFunction (Some k) (Some r) fn args h = (h', Ok tt)
        ∧ handed_over h h' [Sent k (r_Name r) (r_ConnectionID r) fn args].
Proof.
  intros Hs. unfold transport_CallClientFunction. run.
  set (h1 := set_trace _ h).
  assert (handed_over h h1 [Sent k (r_Name r) (r_ConnectionID r) fn args]) as H1.
  { repeat split. by apply sendable_set_trace. }
  destruct k.
  - destruct (ws_CallClientFunction_sendable r fn args h1) as (h' & -> & H2).
    { by apply sendable_set_trace. }
    exists h'. split; [done|].
    by apply (handed_over_app h h1 h' [_] []).
  - exists h1. by split.
Qed.

Section Policy.
Variables (h0 : Hub) (rl : Relay) (fn : string) (args : list value).
(** The handle names a registered relay. *)
Hypothesis Hreg : is_Some (find (λ r, bool_decide (r_Name r = r_Name rl)) (relays h0)).

Lemma callGroupClient_sendable c k h :
  relays h = relays h0 → sendable h → c_transport c = Some k →
  ∃ h', callGroupClient (Some rl) fn args c h = (h', Ok tt)
        ∧ handed_over h h' [Sent k (r_Name rl) (c_ConnectionID c) fn args].
Proof using Hreg.
  intros Hrs Hs Hk. destruct Hreg as [d Hd].
  unfold callGroupClient, getRelayByName, getRelayByName_in. run.
  rewrite Hrs, Hd, Hk.
  apply (transport_CallClientFunction_sendable k
           {| r_Name := r_Name rl; r_ConnectionID := c_ConnectionID c;
              r_t := r_t d; r_methods := [] |}); done.
Qed.

Lemma for_each_client_sendable (f : client → M unit) (keep : client → bool) cs h :
  (∀ c k h, relays h = relays h0 → sendable h → c_transport c = Some k →
     (keep c = true →
      ∃ h', f c h = (h', Ok tt)
            ∧ handed_over h h' [Sent k (r_Name rl) (c_ConnectionID c) fn args])
     ∧ (keep c = false → f c h = (h, Ok tt))) →
  relays h = relays h0 → sendable h →
  Forall (λ c, is_Some (c_transport c)) cs →
  ∃ h', for_each f cs h = (h', Ok tt)
        ∧ handed_over h h'
            (calls_to (r_Name rl) fn args (List.filter keep cs)).
Proof.
  intros Hf. revert h. induction cs as [|c cs IH]; intros h Hrs Hs Hall.
  - exists h. split; [done|]. by apply handed_over_nil.
  - apply Forall_cons in Hall as [[k Hk] Hall].
    destruct (Hf c k h Hrs Hs Hk) as [Hkeep Hskip].
    cbn [for_each List.filter]. unfold mbind, M_bind, bind.
    destruct (keep c) eqn:E.
    + destruct (Hkeep eq_refl) as (h1 & -> & H1).
      destruct (IH h1) as (h' & -> & H'); [|by apply H1|done|].
      { destruct H1 as (-> & _). done. }
      exists h'. split; [done|].
      rewrite (calls_to_cons _ _ _ _ _ k) by done.
      by apply (handed_over_app h h1 h' [_]).
    + rewrite (Hskip eq_refl).
      destruct (IH h Hrs Hs Hall) as (h' & -> & H'). by exists h'.
Qed.
End Policy.

Lemma filter_all {A} (l : list A) : List.filter (λ _, true) l = l.
Proof. induction l as [|x l IH]; [done|]. cbn. by rewrite IH. Qed.

Lemma for_each_records (f : option client → M unit) l h :
  None ∉ l → for_each f l h = for_each (λ c, f (Some c)) (records l) h.
Proof.
  revert h. induction l as [|[c|] l IH]; intros h Hno; [done| |].
  - apply not_elem_of_cons in Hno as [_ Hno].
    change (records (Some c :: l)) with (c :: records l).
    cbn [for_each]. unfold mbind, M_bind, bind.
    destruct (f (Some c) h) as [h' [[]| |]]; [by apply IH|done|done].
  - exfalso. apply Hno. left.
Qed.

Lemma getClientByConnectionID_in_find l cid h :
  None ∉ l →
  getClientByConnectionID_in l cid h
  = (h, Ok (find (λ c, bool_decide (c_ConnectionID c = cid)) (records l))).
Proof.
  induction l as [|[c|] l IH]; intros Hno; [done| |].
  - apply not_elem_of_cons in Hno as [_ Hno].
    change (records (Some c :: l)) with (c :: records l).
    cbn [getClientByConnectionID_in find]. run.
    destruct (bool_decide (c_ConnectionID c = cid)); [done|]. by apply IH.
  - exfalso. apply Hno. left.
Qed.

(** X21. The broadcast policy of the exchange, for a handle that names a
    registered relay, on a hub where the groups concerned hold client
    records only, every one with a transport, and every connected queue is
    open.  A handle without a connection id reaches every client of
    "Global", in order; a bound handle reaches the first client of
    "Global" with its id and nobody else; [callGroupMethodExcept] reaches
    every client of the group whose id is not the handle's. *)
Theorem broadcast_policy (h : Hub) (rl : Relay) (fn : string) (args : list value)
    (group : string)
    (Hreg : is_Some (find (λ r, bool_decide (r_Name r = r_Name rl)) (relays h)))
    (Hsend : sendable h)
    (Hglobal : None ∉ members_of (groups h) "Global")
    (Hgroup : None ∉ members_of (groups h) group)
    (Htg : Forall (λ c, is_Some (c_transport c)) (records (members_of (groups h) "Global")))
    (Htr : Forall (λ c, is_Some (c_transport c)) (records (members_of (groups h) group))) :
  (r_ConnectionID rl = "" →
   ∃ h', callClientMethod (Some rl) fn args h = (h', Ok tt)
         ∧ handed_over h h'
             (calls_to (r_Name rl) fn args (records (members_of (groups h) "Global"))))
  ∧ (r_ConnectionID rl ≠ "" →
     ∃ h', callClientMethod (Some rl) fn args h = (h', Ok tt)
           ∧ handed_over h h'
               (calls_to (r_Name rl) fn args
                  (option_list (find (λ c, bool_decide (c_ConnectionID c = r_ConnectionID rl))
                                  (records (members_of (groups h) "Global"))))))
  ∧ (∃ h', callGroupMethodExcept (Some rl) group fn args h = (h', Ok tt)
           ∧ handed_over h h'
               (calls_to (r_Name rl) fn args
                  (List.filter (λ c, negb (bool_decide (c_ConnectionID c = r_ConnectionID rl)))
                     (records (members_of (groups h) group))))).
Proof.
  split; [|split].
  - intros Hempty. unfold callClientMethod. run.
    rewrite bool_decide_eq_true_2 by done.
    destruct (groups h !! "Global") as [l|] eqn:Hg.
    + assert (members_of (groups h) "Global" = l) as Hm.
      { unfold members_of. by rewrite Hg. }
      rewrite Hm in *.
      rewrite (callGroupMethod_records _ _ _ _ l) by done.
      replace (calls_to (r_Name rl) fn args (records l))
        with (calls_to (r_Name rl) fn args (List.filter (λ _, true) (records l)))
        by (by rewrite filter_all).
      apply (for_each_client_sendable h rl fn args); [|done|done|done].
      intros c k h1 Hrs Hs Hk. split; [|done]. intros _.
      by apply (callGroupClient_sendable h).
    + assert (members_of (groups h) "Global" = []) as Hm.
      { unfold members_of. by rewrite Hg. }
      rewrite Hm. unfold callGroupMethod. run. rewrite Hg. exists h. split; [done|].
      by apply handed_over_nil.
  - intros Hbound. unfold callClientMethod, getClientByConnectionID. run.
    rewrite bool_decide_eq_false_2 by done.
    rewrite getClientByConnectionID_in_find by done.
    destruct (find _ (records _)) as [c|] eqn:Hf.
    + apply find_some in Hf as [Hin Hid]. apply bool_decide_eq_true in Hid.
      rewrite Forall_forall in Htg. destruct (Htg c) as [k Hk]; [by apply list_elem_of_In|].
      change (option_list (Some c)) with [c]. rewrite (calls_to_cons _ _ _ _ _ k) by done.
      rewrite Hk, Hid. by apply transport_CallClientFunction_sendable.
    + exists h. split; [done|]. by apply handed_over_nil.
  - unfold callGroupMethodExcept. run.
    rewrite for_each_records by done.
    apply (for_each_client_sendable h rl fn args); [|done|done|done].
    intros c k h1 Hrs Hs Hk. run.
    destruct (bool_decide (c_ConnectionID c = r_ConnectionID rl)); cbn [negb].
    + split; [done|]. by intros _.
    + split; [|done]. intros _.
      by apply (callGroupClient_sendable h rl fn args Hreg c k h1).
Qed.

Example broadcast_policy_on_sample :
  ∃ h', callGroupMethodExcept (Some (SampleBroadcast.handle "c1")) "Global" "Hello" [VStr "hi"]
          Sample.hub2 = (h', Ok tt)
        ∧ trace h' = [Sent WebSocket "Chat" "c2" "Hello" [VStr "hi"]].
Proof.
  assert (sendable Sample.hub2) as Hsend.
  { apply (bool_decide_unpack
             (map_Forall (λ _ o, ch_closed (chan_at Sample.hub2 (conn_out o)) = false)
                (connections Sample.hub2))).
    vm_compute. exact I. }
  assert (None ∉ members_of (groups Sample.hub2) "Global") as Hrec.
  { intros Hin. vm_compute in Hin. apply elem_of_cons in Hin as [|Hin]; [done|].
    apply elem_of_cons in Hin as [|Hin]; [done|]. by apply elem_of_nil in Hin. }
  assert (Forall (λ c, is_Some (c_transport c))
            (records (members_of (groups Sample.hub2) "Global"))) as Htr.
  { repeat constructor; by eexists. }
  destruct (broadcast_policy Sample.hub2 (SampleBroadcast.handle "c1") "Hello" [VStr "hi"] "Global"
              (ltac:(by eexists)) Hsend Hrec Hrec Htr Htr)
    as (_ & _ & h' & Hrun & _ & _ & _ & _ & Ht).
  exists h'. split; [exact Hrun|]. rewrite Ht. reflexivity.
Defined.

(** * Further properties *)

(** ** Negotiation and the lookup of clients *)

Lemma records_app l1 l2 : records (l1 ++ l2) = records l1 ++ records l2.
Proof. unfold records. apply omap_app. Qed.

Lemma not_nil_app (l : list (option client)) c : None ∉ l → None ∉ l ++ [Some c].
Proof.
  intros Hno Hin. apply elem_of_app in Hin as [Hin|Hin]; [done|].
  by apply list_elem_of_singleton in Hin.
Qed.

Lemma find_id_absent cs cid :
  cid ∉ c_ConnectionID <$> cs →
  find (λ c, bool_decide (c_ConnectionID c = cid)) cs = None.
Proof.
  induction cs as [|c cs IH]; intros Hno; [done|].
  rewrite fmap_cons in Hno. apply not_elem_of_cons in Hno as [Hne Hno].
  cbn [find]. rewrite bool_decide_eq_false_2 by done. by apply IH.
Qed.

Lemma find_id_app cs c cid :
  find (λ c, bool_decide (c_ConnectionID c = cid)) (cs ++ [c])
  = match find (λ c, bool_decide (c_ConnectionID c = cid)) cs with
    | Some c' => Some c'
    | None => if bool_decide (c_ConnectionID c = cid) then Some c else None
    end.
Proof.
  induction cs as [|c0 cs IH]; cbn [app find]; [done|].
  by destruct (bool_decide (c_ConnectionID c0 = cid)).
Qed.

Lemma getClientByConnectionID_Global l cid h :
  getClientByConnectionID cid (set_groups (<["Global" := l]>) h)
  = getClientByConnectionID_in l cid (set_groups (<["Global" := l]>) h).
Proof.
  unfold getClientByConnectionID. run. unfold members_of. cbn [groups set_groups].
  by rewrite lookup_insert_eq.
Qed.

(** X1. A negotiation answers with the id it was given and appends one
    client with that id to "Global", with the transport that the body
    asks for (nil if the exchange has no such transport, or if the body
    does not decode); no other group changes.  When "Global" holds
    records only and none has the id, the lookup of the id finds the new
    client, and the lookup of any other id gives what it gave before. *)
Theorem negotiate_then_lookup (h : Hub) (body : payload) (cID : string)
    (Hrec : None ∉ members_of (groups h) "Global")
    (Hfresh : cID ∉ ids (members_of (groups h) "Global")) :
  ∃ h',
    negotiateConnection body cID h = (h', Ok (VObj [("ConnectionID", VStr cID)]))
    ∧ groups h'
      = <["Global" := members_of (groups h) "Global"
                      ++ [Some {| c_ConnectionID := cID;
                                  c_transport := transports (unmarshal_negotiation body) |}]]>
          (groups h)
    ∧ getClientByConnectionID cID h'
      = (h', Ok (Some {| c_ConnectionID := cID;
                         c_transport := transports (unmarshal_negotiation body) |}))
    ∧ (∀ cid, cid ≠ cID →
         (getClientByConnectionID cid h').2 = (getClientByConnectionID cid h).2).
Proof.
  set (c := {| c_ConnectionID := cID;
               c_transport := transports (unmarshal_negotiation body) |}).
  set (l := members_of (groups h) "Global") in *.
  exists (set_groups (<["Global" := l ++ [Some c]]>) h).
  split; [reflexivity|]. split; [reflexivity|]. split.
  - rewrite getClientByConnectionID_Global.
    rewrite getClientByConnectionID_in_find by (by apply not_nil_app).
    rewrite records_app. change (records [Some c]) with [c].
    rewrite find_id_app, find_id_absent by done.
    by rewrite bool_decide_eq_true_2.
  - intros cid Hne. rewrite getClientByConnectionID_Global.
    unfold getClientByConnectionID. run. fold l.
    rewrite !getClientByConnectionID_in_find by (done || by apply not_nil_app).
    rewrite records_app. change (records [Some c]) with [c]. rewrite find_id_app.
    destruct (find _ (records l)); [done|].
    by rewrite bool_decide_eq_false_2.
Qed.

Lemma negotiate_then_lookup_witness :
  ∃ h',
    negotiateConnection (Json (VObj [("T", VStr "longpoll")])) "c3" Sample.hub2
    = (h', Ok (VObj [("ConnectionID", VStr "c3")]))
    ∧ getClientByConnectionID "c3" h'
      = (h', Ok (Some {| c_ConnectionID := "c3"; c_transport := Some LongPoll |})).
Proof.
  assert (None ∉ members_of (groups Sample.hub2) "Global") as Hrec.
  { intros Hin. vm_compute in Hin. apply elem_of_cons in Hin as [|Hin]; [done|].
    apply elem_of_cons in Hin as [|Hin]; [done|]. by apply elem_of_nil in Hin. }
  assert ("c3" ∉ ids (members_of (groups Sample.hub2) "Global")) as Hfresh.
  { apply (bool_decide_unpack _). vm_compute. exact I. }
  destruct (negotiate_then_lookup Sample.hub2 (Json (VObj [("T", VStr "longpoll")])) "c3"
              Hrec Hfresh) as (h' & Hrun & _ & Hfind & _).
  exists h'. split; [exact Hrun | exact Hfind].
Defined.

(** ** Registering and resolving relays *)

Lemma find_app_l {A} (f : A → bool) (l1 l2 : list A) x :
  find f l1 = Some x → find f (l1 ++ l2) = Some x.
Proof.
  induction l1 as [|a l1 IH]; [done|]. cbn. by destruct (f a).
Qed.

Lemma find_app_r {A} (f : A → bool) (l1 l2 : list A) :
  find f l1 = None → find f (l1 ++ l2) = find f l2.
Proof.
  induction l1 as [|a l1 IH]; [done|]. cbn. by destruct (f a).
Qed.

Lemma find_name_registered (rs : list Relay) name :
  (∃ d, d ∈ rs ∧ r_Name d = name) →
  is_Some (find (λ r, bool_decide (r_Name r = name)) rs).
Proof.
  induction rs as [|d0 rs IH]; intros (d & Hin & Hn).
  - by apply elem_of_nil in Hin.
  - cbn. destruct (bool_decide (r_Name d0 = name)) eqn:E; [by eexists|].
    apply IH. exists d. split; [|done].
    apply elem_of_cons in Hin as [->|]; [|done].
    apply bool_decide_eq_false in E. done.
Qed.

(** Resolving after a registration: untouched for a name that was
    registered before, or that is not the name of the new type. *)
Lemma getRelayByName_in_register h t name cID :
  registered h name ∨ name ≠ type_Name t →
  getRelayByName_in (relays (RegisterRelay t h).1) name cID
  = getRelayByName_in (relays h) name cID.
Proof.
  change (relays (RegisterRelay t h).1) with (relays h ++ [{| r_Name := type_Name t;
    r_ConnectionID := ""; r_t := t; r_methods := getMethodsForType t |}]).
  intros [Hreg|Hne]; unfold getRelayByName_in.
  - destruct (find_name_registered (relays h) name Hreg) as [d Hd].
    by rewrite (find_app_l _ _ _ d Hd), Hd.
  - destruct (find _ (relays h)) as [d|] eqn:Hd.
    + by rewrite (find_app_l _ _ _ d Hd).
    + rewrite find_app_r by done. cbn.
      rewrite bool_decide_eq_false_2; [done|]. cbn. congruence.
Qed.

(** X2. [RegisterRelay] appends a definition and never fails.  Resolving
    a name that was registered before gives what it gave before, also when
    the new type has that name: the first registration of a name is the one
    that is resolved.  When the name of the type was not registered, a
    server-side handle for the type is a handle with that name, the given
    connection id and the type itself. *)
Theorem register_then_resolve (h : Hub) (t : rtype) (name cID : string) :
  RegisterRelay t h
  = (set_relays (λ rs, rs ++ [{| r_Name := type_Name t; r_ConnectionID := "";
                                 r_t := t; r_methods := getMethodsForType t |}]) h, Ok tt)
  ∧ (registered h name ∨ name ≠ type_Name t →
     getRelayByName_in (relays (RegisterRelay t h).1) name cID
     = getRelayByName_in (relays h) name cID)
  ∧ (¬ registered h (type_Name t) →
     Exchange_Relay t cID (RegisterRelay t h).1
     = ((RegisterRelay t h).1,
        Ok (Some {| r_Name := type_Name t; r_ConnectionID := cID; r_t := t;
                    r_methods := [] |}))).
Proof.
  split; [reflexivity|]. split; [apply getRelayByName_in_register|].
  intros Hno. unfold Exchange_Relay, getRelayByName, getRelayByName_in. run.
  change (relays (RegisterRelay t h).1) with (relays h ++ [{| r_Name := type_Name t;
      r_ConnectionID := ""; r_t := t; r_methods := getMethodsForType t |}]).
  rewrite find_app_r.
  - cbn. by rewrite bool_decide_eq_true_2.
  - apply find_name_None. intros d Hd Hn. apply Hno. by exists d.
Qed.

Lemma register_then_resolve_witness :
  getRelayByName_in (relays (RegisterRelay (Named "Chat" [] []) Sample.hub).1) "Chat" "c1"
  = getRelayByName_in (relays Sample.hub) "Chat" "c1"
  ∧ Exchange_Relay (Named "News" [] []) "s1" (RegisterRelay (Named "News" [] []) Sample.hub).1
    = ((RegisterRelay (Named "News" [] []) Sample.hub).1,
       Ok (Some {| r_Name := "News"; r_ConnectionID := "s1"; r_t := Named "News" [] [];
                   r_methods := [] |})).
Proof.
  split.
  - apply (proj1 (proj2 (register_then_resolve Sample.hub (Named "Chat" [] []) "Chat" "c1"))).
    left. exists {| r_Name := "Chat"; r_ConnectionID := ""; r_t := Sample.Chat;
                    r_methods := ["Broadcast"] |}.
    split; [left|reflexivity].
  - apply (proj2 (proj2 (register_then_resolve Sample.hub (Named "News" [] []) "News" "s1"))).
    intros (d & Hd & Hn). cbn in Hd. apply list_elem_of_singleton in Hd.
    subst d. discriminate Hn.
Defined.

(** X3. A relay registered through a pointer ([RegisterRelay(&Chat{})])
    goes under the empty name, not under the name of the type pointed to,
    and none of its methods can be invoked: every server call on a handle
    for it is an [UnknownMethod] error. *)
Theorem pointer_registration_dispatches_nothing (h : Hub) (t : rtype)
    (cID fn : string) (args : list value)
    (Hno : ¬ registered h "") :
  ∃ r,
    getRelayByName_in (relays (RegisterRelay (PtrTo t) h).1) "" cID = Some r
    ∧ callRelayMethod (Some r) fn args (RegisterRelay (PtrTo t) h).1
      = ((RegisterRelay (PtrTo t) h).1, Ok (Some (UnknownMethod fn "")))
    ∧ (type_Name t ≠ "" →
       getRelayByName_in (relays (RegisterRelay (PtrTo t) h).1) (type_Name t) cID
       = getRelayByName_in (relays h) (type_Name t) cID).
Proof.
  exists {| r_Name := ""; r_ConnectionID := cID; r_t := PtrTo t; r_methods := [] |}.
  split; [|split].
  - unfold getRelayByName_in.
    change (relays (RegisterRelay (PtrTo t) h).1) with (relays h ++ [{| r_Name := "";
        r_ConnectionID := ""; r_t := PtrTo t; r_methods := getMethodsForType (PtrTo t) |}]).
    rewrite find_app_r; [done|].
    apply find_name_None. intros d Hd Hn. apply Hno. by exists d.
  - reflexivity.
  - intros Hne. apply getRelayByName_in_register. right. done.
Qed.

Lemma pointer_registration_dispatches_nothing_witness :
  ∃ r,
    getRelayByName_in (relays (RegisterRelay (PtrTo Sample.Chat) (NewExchange 0)).1) "" "c1"
    = Some r
    ∧ callRelayMethod (Some r) "Broadcast" [VStr "hi"]
        (RegisterRelay (PtrTo Sample.Chat) (NewExchange 0)).1
      = ((RegisterRelay (PtrTo Sample.Chat) (NewExchange 0)).1,
         Ok (Some (UnknownMethod "Broadcast" ""))).
Proof.
  assert (¬ registered (NewExchange 0) "") as Hno.
  { intros (d & Hd & _). by apply elem_of_nil in Hd. }
  destruct (pointer_registration_dispatches_nothing (NewExchange 0) Sample.Chat "c1"
              "Broadcast" [VStr "hi"] Hno) as (r & Hr & Hcall & _).
  exists r. split; [exact Hr | exact Hcall].
Defined.

(** ** Server calls, from the envelope to the method *)

(** The three ways [callRelayMethod] can go for a handle. *)
Lemma callRelayMethod_found r fn args meth h :
  MethodByName (reflect_New (r_t r)) fn = Some meth →
  callRelayMethod (Some r) fn args h
  = if accepts meth (buildArgValues r args)
    then (set_trace (λ tr, tr ++ [Invoked (type_Name (r_t r)) fn (buildArgValues r args)]) h,
          Ok None)
    else (h, Panic).
Proof.
  intros Hm. unfold callRelayMethod. run. rewrite Hm.
  rewrite (MethodByName_name _ _ _ Hm). by destruct (accepts meth _).
Qed.

Lemma callRelayMethod_missing r fn args h :
  MethodByName (reflect_New (r_t r)) fn = None →
  callRelayMethod (Some r) fn args h = (h, Ok (Some (UnknownMethod fn (r_Name r)))).
Proof. intros Hm. unfold callRelayMethod. run. by rewrite Hm. Qed.

(** X4. A server call read from a socket is dispatched on the fields of the
    envelope alone; the connection it came in on plays no part, and the
    handle is bound to the connection id that the envelope carries.  For a
    registered relay: a method that takes the inputs is invoked once and
    the loop goes on; an unknown method changes nothing and the loop goes
    on; a method that does not take the inputs makes the read loop
    panic, nothing being invoked. *)
Theorem socket_server_call (h : Hub) (c : connection) (p : payload)
    (m : webSocketClientMessage) (r : Relay)
    (Hdec : unmarshal p = (m, true))
    (Hsrv : m_Server m = true)
    (Hrel : getRelayByName_in (relays h) (m_Relay m) (m_ConnectionID m) = Some r) :
  (∀ c', read_message c' p h = read_message c p h)
  ∧ (∀ meth, MethodByName (reflect_New (r_t r)) (m_Method m) = Some meth →
       read_message c p h
       = if accepts meth (RelayPtr (m_Relay m) (m_ConnectionID m) :: map Iface (m_Arguments m))
         then (set_trace (λ tr, tr ++ [Invoked (type_Name (r_t r)) (m_Method m)
                                          (RelayPtr (m_Relay m) (m_ConnectionID m)
                                           :: map Iface (m_Arguments m))]) h, Ok tt)
         else (h, Panic))
  ∧ (MethodByName (reflect_New (r_t r)) (m_Method m) = None →
     read_message c p h = (h, Ok tt)).
Proof.
  apply getRelayByName_in_Some in Hrel as Hr. destruct Hr as (Hn & Hc & _).
  split; [done|]. split.
  - intros meth Hm. unfold read_message, getRelayByName. rewrite Hdec.
    unfold mbind, M_bind, bind, get, ret. rewrite Hrel, Hsrv.
    rewrite (callRelayMethod_found r _ _ meth) by done.
    unfold buildArgValues. rewrite Hn, Hc. by destruct (accepts meth _).
  - intros Hm. unfold read_message, getRelayByName. rewrite Hdec.
    unfold mbind, M_bind, bind, get, ret. rewrite Hrel, Hsrv.
    by rewrite callRelayMethod_missing.
Qed.

Lemma socket_server_call_witness :
  read_message Sample.conn2 (Sample.envelope true "Chat" "Broadcast" [VStr "hi"] "c1")
    Sample.hub2
  = (set_trace (λ tr, tr ++ [Invoked "Chat" "Broadcast" [RelayPtr "Chat" "c1"; Iface (VStr "hi")]])
       Sample.hub2, Ok tt).
Proof.
  exact (proj1 (proj2 (socket_server_call Sample.hub2 Sample.conn2
           (Sample.envelope true "Chat" "Broadcast" [VStr "hi"] "c1")
           {| m_Server := true; m_Relay := "Chat"; m_Method := "Broadcast";
              m_Arguments := [VStr "hi"]; m_ConnectionID := "c1" |}
           (SampleBroadcast.handle "c1") eq_refl eq_refl eq_refl))
         Sample.Broadcast eq_refl).
Defined.

(** X5. A server call over HTTP is dispatched on what could be decoded of
    the body, whether or not it decoded without error, and the handle is
    bound to the [connectionId] of the URL, not to the id in the body.  A
    method that takes the inputs is invoked once; an unknown method
    changes nothing and the error is dropped; a method that does not take
    the inputs panics in the goroutine of the call, which ends the
    process. *)
Theorem http_server_call (h : Hub) (body : payload) (cid : string) (cids : list string)
    (r : Relay)
    (Hrel : getRelayByName_in (relays h) (m_Relay (unmarshal body).1) cid = Some r) :
  (∀ meth, MethodByName (reflect_New (r_t r)) (m_Method (unmarshal body).1) = Some meth →
     callServer body (cid :: cids) h
     = if accepts meth (RelayPtr (m_Relay (unmarshal body).1) cid
                        :: map Iface (m_Arguments (unmarshal body).1))
       then (set_trace (λ tr, tr ++ [Invoked (type_Name (r_t r)) (m_Method (unmarshal body).1)
                                        (RelayPtr (m_Relay (unmarshal body).1) cid
                                         :: map Iface (m_Arguments (unmarshal body).1))]) h,
             Ok tt)
       else (h, Fatal))
  ∧ (MethodByName (reflect_New (r_t r)) (m_Method (unmarshal body).1) = None →
     callServer body (cid :: cids) h = (h, Ok tt)).
Proof.
  apply getRelayByName_in_Some in Hrel as Hr. destruct Hr as (Hn & Hc & _).
  split.
  - intros meth Hm. unfold callServer, getRelayByName, first_of, spawn.
    unfold mbind, M_bind, bind, get, ret. rewrite Hrel.
    rewrite (callRelayMethod_found r _ _ meth) by done.
    unfold buildArgValues. rewrite Hn, Hc. by destruct (accepts meth _).
  - intros Hm. unfold callServer, getRelayByName, first_of, spawn.
    unfold mbind, M_bind, bind, get, ret. rewrite Hrel.
    by rewrite callRelayMethod_missing.
Qed.

Lemma http_server_call_witness :
  callServer (Sample.envelope true "Chat" "Broadcast" [VStr "hi"] "c2") ["c1"] Sample.hub2
  = (set_trace (λ tr, tr ++ [Invoked "Chat" "Broadcast" [RelayPtr "Chat" "c1"; Iface (VStr "hi")]])
       Sample.hub2, Ok tt)
  ∧ callServer (Sample.envelope true "Chat" "Broadcast" [VNum 1; VNum 2] "c2") ["c1"]
      Sample.hub2
    = (Sample.hub2, Fatal).
Proof.
  split.
  - exact (proj1 (http_server_call Sample.hub2
             (Sample.envelope true "Chat" "Broadcast" [VStr "hi"] "c2") "c1" []
             (SampleBroadcast.handle "c1") eq_refl) Sample.Broadcast eq_refl).
  - exact (proj1 (http_server_call Sample.hub2
             (Sample.envelope true "Chat" "Broadcast" [VNum 1; VNum 2] "c2") "c1" []
             (SampleBroadcast.handle "c1") eq_refl) Sample.Broadcast eq_refl).
Defined.

(** ** What calls to clients leave alone *)

Lemma unchanged_refl h : unchanged h h.
Proof. by repeat split. Qed.

Lemma unchanged_trans h1 h2 h3 : unchanged h1 h2 → unchanged h2 h3 → unchanged h1 h3.
Proof. intros (? & ? & ?) (? & ? & ?). repeat split; congruence. Qed.

Lemma gentle_ret {A} (a : A) : gentle (ret a).
Proof. intros h. apply unchanged_refl. Qed.

Lemma gentle_panic {A} : gentle (@panic A).
Proof. intros h. apply unchanged_refl. Qed.

Lemma gentle_bind {A B} (m : M A) (k : A → M B) :
  gentle m → (∀ a, gentle (k a)) → gentle (m ≫= k).
Proof.
  intros Hm Hk h. unfold mbind, M_bind, bind.
  pose proof (Hm h) as Hu. destruct (m h) as [h1 [a| |]]; cbn in *; [|done|done].
  eapply unchanged_trans; [exact Hu|apply Hk].
Qed.

Lemma gentle_get {A} (k : Hub → M A) : (∀ h0, gentle (k h0)) → gentle (get ≫= k).
Proof. intros Hk h. apply (Hk h h). Qed.

Lemma calm_get {A} (k : Hub → M A) : (∀ h0, calm (k h0)) → calm (get ≫= k).
Proof. intros Hk h. apply (Hk h h). Qed.

Lemma gentle_deref {A} (p : option A) : gentle (deref p).
Proof. destruct p; [apply gentle_ret|apply gentle_panic]. Qed.

Lemma gentle_emit ev : gentle (emit ev).
Proof. intros h. by repeat split. Qed.

Lemma gentle_set_chans f : gentle (modify (set_chans f)).
Proof. intros h. by repeat split. Qed.

Lemma gentle_chan_send ch msg : gentle (chan_send ch msg).
Proof.
  unfold chan_send. apply gentle_get. intros h0.
  destruct (ch_closed _); [apply gentle_panic|apply gentle_set_chans].
Qed.

Lemma gentle_for_each {A} (f : A → M unit) l : (∀ x, gentle (f x)) → gentle (for_each f l).
Proof.
  intros Hf. induction l as [|x l IH]; [apply gentle_ret|].
  cbn [for_each]. apply gentle_bind; [apply Hf|]. by intros _.
Qed.

Lemma calm_for_each {A} (f : A → M unit) l : (∀ x, calm (f x)) → calm (for_each f l).
Proof.
  intros Hf. induction l as [|x l IH]; [apply calm_ret|].
  cbn [for_each]. apply calm_bind; [apply Hf|]. by intros _.
Qed.

Lemma gentle_getRelayByName name cID : gentle (getRelayByName name cID).
Proof. intros h. apply unchanged_refl. Qed.

Lemma gentle_ws_CallClientFunction relay fn args :
  gentle (ws_CallClientFunction relay fn args).
Proof.
  unfold ws_CallClientFunction. apply gentle_bind; [apply gentle_deref|]. intros r.
  apply gentle_get. intros h0.
  destruct (connections h0 !! _); [apply gentle_chan_send|apply gentle_ret].
Qed.

Lemma harmless_transport t relay fn args :
  harmless (transport_CallClientFunction t relay fn args).
Proof.
  unfold transport_CallClientFunction. split.
  - apply gentle_bind; [apply gentle_deref|]. intros k.
    apply gentle_bind; [destruct relay; [apply gentle_emit|apply gentle_ret]|]. intros _.
    destruct k; [apply gentle_ws_CallClientFunction|].
    unfold lp_CallClientFunction. apply gentle_bind; [apply gentle_deref|].
    intros _. apply gentle_ret.
  - apply calm_bind; [apply calm_deref|]. intros k.
    apply calm_bind; [destruct relay; [by apply calm_emit|apply calm_ret]|]. intros _.
    destruct k; [apply calm_ws_CallClientFunction|].
    unfold lp_CallClientFunction. apply calm_bind; [apply calm_deref|].
    intros _. apply calm_ret.
Qed.

Lemma harmless_callGroupClient relay fn args c : harmless (callGroupClient relay fn args c).
Proof.
  unfold callGroupClient. split.
  - apply gentle_bind; [apply gentle_deref|]. intros rl.
    apply gentle_bind; [apply gentle_getRelayByName|]. intros r.
    apply harmless_transport.
  - apply calm_bind; [apply calm_deref|]. intros rl.
    apply calm_bind; [apply calm_getRelayByName|]. intros r.
    apply harmless_transport.
Qed.

Lemma harmless_getClientByConnectionID_in l cID :
  harmless (getClientByConnectionID_in l cID).
Proof.
  induction l as [|p l [IHg IHc]]; [split; [apply gentle_ret|apply calm_ret]|].
  cbn [getClientByConnectionID_in]. split.
  - apply gentle_bind; [apply gentle_deref|]. intros c.
    destruct (bool_decide _); [apply gentle_ret|done].
  - apply calm_bind; [apply calm_deref|]. intros c.
    destruct (bool_decide _); [apply calm_ret|done].
Qed.

Lemma harmless_callGroupMethod relay group fn args :
  harmless (callGroupMethod relay group fn args).
Proof.
  unfold callGroupMethod. split.
  - apply gentle_get. intros h0. destruct (groups h0 !! group); [|apply gentle_ret].
    apply gentle_for_each. intros [c|]; [apply harmless_callGroupClient|apply gentle_ret].
  - apply calm_get. intros h0. destruct (groups h0 !! group); [|apply calm_ret].
    apply calm_for_each. intros [c|]; [apply harmless_callGroupClient|apply calm_ret].
Qed.

(** X6. A call to clients, whichever of the three it is, whatever it is
    given and however it ends, leaves the relays, the groups, the verbosity
    and the connection table as they are, closes no queue, and cannot end
    the process: all it can do is queue messages, and panic. *)
Theorem client_calls_are_harmless (relay : option Relay) (group fn : string)
    (args : list value) :
  harmless (callClientMethod relay fn args)
  ∧ harmless (callGroupMethod relay group fn args)
  ∧ harmless (callGroupMethodExcept relay group fn args).
Proof.
  split; [|split; [apply harmless_callGroupMethod|]].
  - unfold callClientMethod. split.
    + apply gentle_bind; [apply gentle_deref|]. intros rl.
      destruct (bool_decide _); [apply harmless_callGroupMethod|].
      unfold getClientByConnectionID.
      apply gentle_bind; [apply gentle_get; intros h0;
                          apply harmless_getClientByConnectionID_in|].
      intros [c|]; [apply harmless_transport|apply gentle_ret].
    + apply calm_bind; [apply calm_deref|]. intros rl.
      destruct (bool_decide _); [apply harmless_callGroupMethod|].
      unfold getClientByConnectionID.
      apply calm_bind; [apply calm_get; intros h0;
                        apply harmless_getClientByConnectionID_in|].
      intros [c|]; [apply harmless_transport|apply calm_ret].
  - unfold callGroupMethodExcept. split.
    + apply gentle_get. intros h0. apply gentle_for_each. intros p.
      apply gentle_bind; [apply gentle_deref|]. intros c.
      apply gentle_bind; [apply gentle_deref|]. intros rl.
      destruct (bool_decide _); [apply gentle_ret|].
      apply gentle_bind; [apply gentle_getRelayByName|]. intros r.
      apply harmless_transport.
    + apply calm_get. intros h0. apply calm_for_each. intros p.
      apply calm_bind; [apply calm_deref|]. intros c.
      apply calm_bind; [apply calm_deref|]. intros rl.
      destruct (bool_decide _); [apply calm_ret|].
      apply calm_bind; [apply calm_getRelayByName|]. intros r.
      apply harmless_transport.
Qed.

(** ** The outbound queue of a connection *)





(** What a disconnect notification does when the id is in the table and
    the queue of the connection is open. *)
Lemma listen_step_disconnect conn h :
  is_Some (connections h !! conn_id conn) →
  ch_closed (chan_at h (conn_out conn)) = false →
  ∃ h',
    listen_step (Disconnected conn) h = (h', Ok tt)
    ∧ relays h' = relays h
    ∧ groups h' = groups (removeFromAllGroups (conn_id conn) h).1
    ∧ connections h' = delete (conn_id conn) (connections h)
    ∧ chan_at h' (conn_out conn)
      = {| ch_buf := ch_buf (chan_at h (conn_out conn)); ch_closed := true |}
    ∧ (∀ ch, ch ≠ conn_out conn → chan_at h' ch = chan_at h ch)
    ∧ trace h' = trace h ++ [Closed (conn_out conn)].
Proof.
  intros [o Ho] Hopen. unfold listen_step. run. rewrite Ho.
  rewrite removeFromAllGroups_run. unfold chan_close. run.
  match goal with |- context [ch_closed (chan_at ?h1 _)] =>
    change (ch_closed (chan_at h1 (conn_out conn)))
      with (ch_closed (chan_at h (conn_out conn))) end.
  rewrite Hopen. eexists. split; [reflexivity|].
  repeat split.
  - unfold chan_at. cbn. by rewrite lookup_insert_eq.
  - intros ch Hne. unfold chan_at. cbn. by rewrite lookup_insert_ne.
Qed.




(** ** The connection table over connects and disconnects *)

(** X9. A connection that registers under an id already in the table
    takes the place of the one that was there.  When the replaced
    connection then reports its disconnect, it is the replacement that is
    taken out of the table, and the id out of all groups, while the queue
    that is closed is the replaced connection's: the replacement is left
    with an open queue that no call reaches any more, and its own
    disconnect, when it comes, does nothing. *)
Theorem stale_disconnect_evicts_replacement (h : Hub) (c1 c2 : connection)
    (Hid : conn_id c1 = conn_id c2)
    (Hch : conn_out c1 ≠ conn_out c2)
    (Hopen1 : ch_closed (chan_at h (conn_out c1)) = false)
    (Hopen2 : ch_closed (chan_at h (conn_out c2)) = false) :
  ∃ h2 h3,
    listen_step (Connected c2) (listen_step (Connected c1) h).1 = (h2, Ok tt)
    ∧ connections h2 !! conn_id c1 = Some c2
    ∧ listen_step (Disconnected c1) h2 = (h3, Ok tt)
    ∧ connections h3 !! conn_id c2 = None
    ∧ groups h3 = groups (removeFromAllGroups (conn_id c2) h).1
    ∧ ch_closed (chan_at h3 (conn_out c1)) = true
    ∧ ch_closed (chan_at h3 (conn_out c2)) = false
    ∧ listen_step (Disconnected c2) h3 = (h3, Ok tt).
Proof.
  set (h2 := set_connections (<[conn_id c2 := c2]>)
               (set_connections (<[conn_id c1 := c1]>) h)).
  assert (connections h2 !! conn_id c1 = Some c2) as Hc2.
  { unfold h2. cbn. rewrite Hid. by rewrite lookup_insert_eq. }
  destruct (listen_step_disconnect c1 h2) as (h3 & Hstep & _ & Hg & Hcon & Hq & Hoth & _).
  { by eexists. }
  { done. }
  assert (connections h3 !! conn_id c2 = None) as Hgone.
  { rewrite Hcon, Hid. apply lookup_delete_eq. }
  exists h2, h3. split; [reflexivity|]. split; [done|]. split; [done|].
  split; [done|]. split; [|split; [|split]].
  - rewrite Hg, <- Hid. by rewrite !removeFromAllGroups_run.
  - by rewrite Hq.
  - rewrite Hoth by done. done.
  - by apply listen_step_absent.
Qed.

Lemma stale_disconnect_evicts_replacement_witness :
  ∃ h2 h3,
    listen_step (Connected {| conn_id := "c1"; conn_out := 8%nat |}) Sample.hub2
    = (h2, Ok tt)
    ∧ listen_step (Disconnected Sample.conn1) h2 = (h3, Ok tt)
    ∧ connections h3 !! "c1" = None
    ∧ ch_closed (chan_at h3 8%nat) = false.
Proof.
  destruct (stale_disconnect_evicts_replacement Sample.hub2 Sample.conn1
              {| conn_id := "c1"; conn_out := 8%nat |} eq_refl
              (ltac:(discriminate)) eq_refl eq_refl)
    as (h2 & h3 & Hreg & _ & Hstep & Hgone & _ & _ & Hopen & _).
  exists h2, h3. split; [|split; [exact Hstep|split; [exact Hgone | exact Hopen]]].
  rewrite <- Hreg. reflexivity.
Defined.

(** ** A whole run of the socket handler *)

Lemma gentle_callRelayMethod relay fn args : gentle (callRelayMethod relay fn args).
Proof.
  unfold callRelayMethod. apply gentle_bind; [apply gentle_deref|]. intros r.
  destruct (MethodByName _ fn) as [m|]; [|apply gentle_ret].
  destruct (accepts m _); [|apply gentle_panic].
  apply gentle_bind; [apply gentle_emit|]. intros _. apply gentle_ret.
Qed.

Lemma gentle_read_message c p : gentle (read_message c p).
Proof.
  unfold read_message. destruct (unmarshal p) as [m [|]]; [|apply gentle_ret].
  apply gentle_bind; [apply gentle_getRelayByName|]. intros relay.
  destruct (m_Server m).
  - apply gentle_bind; [apply gentle_callRelayMethod|]. intros _. apply gentle_ret.
  - apply gentle_ws_CallClientFunction.
Qed.

Lemma gentle_read_loop c messages : gentle (read_loop c messages).
Proof.
  induction messages as [|p ps IH]; [apply gentle_ret|].
  cbn [read_loop]. apply gentle_bind; [apply gentle_read_message|]. by intros _.
Qed.

Lemma sendable_undisturbed h h' : undisturbed h h' → sendable h → sendable h'.
Proof.
  intros (Hc & Hf & _) Hs cid o Ho. rewrite Hc in Ho. rewrite Hf. by apply (Hs cid o).
Qed.

Lemma removeFromAllGroups_groups cid h h' :
  groups h' = groups h →
  groups (removeFromAllGroups cid h').1 = groups (removeFromAllGroups cid h).1.
Proof. intros Hg. rewrite !removeFromAllGroups_run. cbn. by rewrite Hg. Qed.

(** After [removeFromAllGroups], in a group that had no two records with
    one id. *)
Lemma removeFromAllGroups_lookup cid h g :
  groups (removeFromAllGroups cid h).1 !! g = left_of cid (groups h !! g).
Proof.
  rewrite removeFromAllGroups_run. cbn [fst groups set_groups].
  rewrite drop_members_lookup by apply NoDup_fst_map_to_list.
  destruct (decide (g ∈ (map_to_list (groups h)).*1)) as [|Hno]; [done|].
  destruct (groups h !! g) as [l|] eqn:E; [|done].
  exfalso. apply Hno. apply list_elem_of_fmap. exists (g, l).
  split; [done|]. by apply elem_of_map_to_list.
Qed.

(** X10. A run of the socket handler, whatever messages it reads and
    whether its read loop returns or panics, ends with the exchange as
    [removeFromAllGroups] of its id leaves it and with the id out of the
    connection table, all other entries being as before: no group in which
    ids were distinct has a record with the id left.  When every queue of
    the table was open and the queue made for the connection is not that
    of another entry, every queue of the table is open afterwards. *)
Theorem socket_handler_cleans_up (h : Hub) (cid : string) (cids : list string)
    (out : nat) (messages : list payload)
    (Hopen : ch_closed (chan_at h out) = false) :
  ∃ h' r,
    upgradeWebSocket true (cid :: cids) out messages h = (h', r)
    ∧ relays h' = relays h
    ∧ groups h' = groups (removeFromAllGroups cid h).1
    ∧ connections h' = delete cid (connections h)
    ∧ (∀ g l l', groups h !! g = Some l → NoDup (ids l) →
                 groups h' !! g = Some l' → cid ∉ ids l')
    ∧ (sendable h →
       (∀ id o, connections h !! id = Some o → conn_out o ≠ out) →
       sendable h').
Proof.
  set (c := {| conn_id := cid; conn_out := out |}).
  set (h1 := set_connections (<[cid := c]>) h).
  assert (calm (read_loop c messages ≫= λ _, emit (WsClosed (conn_id c)))) as Hcalm.
  { apply calm_bind; [apply calm_read_loop|]. intros _. by apply calm_emit. }
  assert (gentle (read_loop c messages ≫= λ _, emit (WsClosed (conn_id c)))) as Hgentle.
  { apply gentle_bind; [apply gentle_read_loop|]. intros _. apply gentle_emit. }
  destruct (Hcalm h1) as [Hund Hr]. destruct (Hgentle h1) as (Hrel & Hgr & _).
  destruct ((read_loop c messages ≫= λ _, emit (WsClosed (conn_id c))) h1)
    as [h2 r2] eqn:Ebody. cbn [fst snd] in Hund, Hr, Hrel, Hgr.
  destruct Hund as (Hc & Hf & Ht).
  assert (is_Some (connections h2 !! conn_id c)) as Hin.
  { rewrite Hc. cbn. rewrite lookup_insert_eq. by eexists. }
  assert (ch_closed (chan_at h2 (conn_out c)) = false) as Hopen2.
  { by rewrite Hf. }
  destruct (listen_step_disconnect c h2 Hin Hopen2)
    as (h3 & Hn & Hrel3 & Hg3 & Hc3 & Hq3 & Hoth3 & _).
  assert (notify (Disconnected c) h2 = (h3, Ok tt)) as Hnot.
  { unfold notify, spawn. by rewrite Hn. }
  assert (connections h3 = delete cid (connections h)) as Hcon.
  { rewrite Hc3, Hc. cbn. apply delete_insert_eq. }
  assert (notify (Disconnected c) h3 = (h3, Ok tt)) as Hnot3.
  { apply notify_absent. rewrite Hcon. apply lookup_delete_eq. }
  assert (groups h3 = groups (removeFromAllGroups cid h).1) as Hgroups.
  { rewrite Hg3. apply removeFromAllGroups_groups. by rewrite Hgr. }
  assert (∃ r, read c messages h1 = (h3, r) ∧ r ≠ Fatal) as (r & Hread & Hrf).
  { unfold read, deferred. rewrite Ebody. destruct r2 as [[]| |]; [| |done].
    - exists (Ok tt). split; [|done]. unfold mbind, M_bind, bind. by rewrite Hnot.
    - exists Panic. split; [|done]. unfold mbind, M_bind, bind. by rewrite Hnot. }
  exists h3, r. split; [|split; [|split; [|split; [|split]]]].
  - unfold upgradeWebSocket. run. fold c. fold h1.
    change (notify (Connected c) h) with (h1, @Ok unit tt). cbn iota beta.
    unfold deferred. rewrite Hread. destruct r as [[]| |]; [| |done];
      unfold mbind, M_bind, bind; by rewrite Hnot3.
  - by rewrite Hrel3, Hrel.
  - done.
  - done.
  - intros g l l' Hg Hnd. rewrite Hgroups, removeFromAllGroups_lookup, Hg.
    by apply left_of_clears.
  - intros Hs Hfresh id o Ho. rewrite Hcon in Ho.
    apply lookup_delete_Some in Ho as [Hne Ho].
    rewrite Hoth3 by (by apply (Hfresh id o)).
    rewrite Hf. unfold h1. change (chan_at (set_connections ?f ?x) ?ch) with (chan_at x ch).
    by apply (Hs id o).
Qed.

Lemma socket_handler_cleans_up_witness :
  ∃ h' r,
    upgradeWebSocket true ["c1"] 7%nat [SampleCall.inbound; Garbage] SampleGroups.hub3
    = (h', r)
    ∧ connections h' = delete "c1" (connections SampleGroups.hub3)
    ∧ (∀ l', groups h' !! "lobby" = Some l' → "c1" ∉ ids l').
Proof.
  destruct (socket_handler_cleans_up SampleGroups.hub3 "c1" [] 7%nat
              [SampleCall.inbound; Garbage] eq_refl)
    as (h' & r & Hrun & _ & _ & Hcon & Hclear & _).
  exists h', r. split; [exact Hrun|]. split; [exact Hcon|].
  intros l'. apply (Hclear "lobby" [Sample.ws_client "c2"; Sample.ws_client "c1"] l').
  - reflexivity.
  - apply (bool_decide_unpack _). vm_compute. exact I.
Defined.

(** X11. That every queue of the connection table is open is kept by a
    connect notification for a connection whose queue is open, by any
    call through the socket transport, and by a disconnect notification
    for a connection whose queue no other entry of the table refers to.
    While it holds, a call through the socket transport with a handle
    returns normally. *)
Theorem table_queues_stay_open (h : Hub) (conn : connection) (relay : option Relay)
    (r : Relay) (fn : string) (args : list value)
    (Hs : sendable h) :
  (ch_closed (chan_at h (conn_out conn)) = false →
   sendable (listen_step (Connected conn) h).1)
  ∧ sendable (ws_CallClientFunction relay fn args h).1
  ∧ (ws_CallClientFunction (Some r) fn args h).2 = Ok tt
  ∧ ((∀ id o, id ≠ conn_id conn → connections h !! id = Some o →
              conn_out o ≠ conn_out conn) →
     sendable (listen_step (Disconnected conn) h).1).
Proof.
  split; [|split; [|split]].
  - intros Hopen id o Ho. cbn in Ho.
    apply lookup_insert_Some in Ho as [[_ <-]|[_ Ho]]; [done|by apply (Hs id o)].
  - apply (sendable_undisturbed h); [|done]. apply calm_ws_CallClientFunction.
  - by destruct (ws_CallClientFunction_sendable r fn args h Hs) as (h' & -> & _).
  - intros Hfresh. destruct (connections h !! conn_id conn) as [o0|] eqn:Hin.
    + unfold listen_step. run. rewrite Hin. rewrite removeFromAllGroups_run.
      unfold chan_close. run.
      match goal with |- context [ch_closed (chan_at ?h1 _)] =>
        change (ch_closed (chan_at h1 (conn_out conn)))
          with (ch_closed (chan_at h (conn_out conn))) end.
      destruct (ch_closed (chan_at h (conn_out conn))).
      * intros id o Ho. cbn in Ho. apply lookup_delete_Some in Ho as [_ Ho].
        by apply (Hs id o).
      * intros id o Ho. cbn in Ho. apply lookup_delete_Some in Ho as [Hne Ho].
        assert (conn_out conn ≠ conn_out o) as Hch.
        { intros Heq. by apply (Hfresh id o). }
        unfold chan_at. cbn. rewrite lookup_insert_ne by done.
        by apply (Hs id o).
    + by rewrite listen_step_absent.
Qed.

Lemma table_queues_stay_open_witness :
  sendable (listen_step (Connected {| conn_id := "c3"; conn_out := 3%nat |}) Sample.hub2).1
  ∧ (ws_CallClientFunction (Some (SampleBroadcast.handle "c2")) "Hello" [] Sample.hub2).2
    = Ok tt.
Proof.
  assert (sendable Sample.hub2) as Hs.
  { apply (bool_decide_unpack
             (map_Forall (λ _ o, ch_closed (chan_at Sample.hub2 (conn_out o)) = false)
                (connections Sample.hub2))).
    vm_compute. exact I. }
  destruct (table_queues_stay_open Sample.hub2 {| conn_id := "c3"; conn_out := 3%nat |}
              None (SampleBroadcast.handle "c2") "Hello" [] Hs) as (Hc & _ & Hok & _).
  split; [exact (Hc eq_refl) | exact Hok].
Defined.

(** ** Joining and leaving groups *)

Lemma find_id_present cs cid :
  cid ∈ c_ConnectionID <$> cs →
  ∃ c, find (λ c, bool_decide (c_ConnectionID c = cid)) cs = Some c
       ∧ c_ConnectionID c = cid.
Proof.
  induction cs as [|c cs IH]; intros Hin.
  - by apply elem_of_nil in Hin.
  - cbn [find]. destruct (bool_decide (c_ConnectionID c = cid)) eqn:E.
    + apply bool_decide_eq_true in E. by exists c.
    + apply bool_decide_eq_false in E. rewrite fmap_cons in Hin.
      apply elem_of_cons in Hin as [Heq|Hin]; [congruence|]. by apply IH.
Qed.

Lemma index_from_app_absent i l l2 cid :
  cid ∉ ids l →
  index_from i (l ++ l2) cid = index_from (i + Z.of_nat (length l)) l2 cid.
Proof.
  revert i. induction l as [|[c|] l IH]; intros i Hno; cbn [app index_from length].
  - f_equal. lia.
  - rewrite ids_cons_Some in Hno. apply not_elem_of_cons in Hno as [Hne Hno].
    rewrite bool_decide_eq_false_2 by done. rewrite IH by done. f_equal. lia.
  - rewrite ids_cons_None in Hno. rewrite IH by done. f_equal. lia.
Qed.

Lemma members_of_insert_eq gs g l : members_of (<[g := l]> gs) g = l.
Proof. unfold members_of. by rewrite lookup_insert_eq. Qed.

(** The state [addToGroup] leaves for the id of a client that is not in
    the group yet. *)
Lemma addToGroup_client g cid h :
  None ∉ members_of (groups h) "Global" →
  cid ∈ ids (members_of (groups h) "Global") →
  cid ∉ ids (members_of (groups h) g) →
  ∃ c, c_ConnectionID c = cid
       ∧ Some c ∈ members_of (groups h) "Global"
       ∧ (addToGroup g cid h).1
         = set_groups (<[g := members_of (groups h) g ++ [Some c]]>) h.
Proof.
  intros Hrec Hin Hno. destruct (find_id_present (records (members_of (groups h) "Global")) cid)
    as (c & Hf & Hc); [done|].
  exists c. split; [done|]. split.
  - apply find_some in Hf as [Hc' _]. apply list_elem_of_In in Hc'.
    unfold records in Hc'. apply list_elem_of_omap in Hc' as (p & Hp & Hpc).
    cbn in Hpc. by subst p.
  - apply (index_from_absent 0) in Hno.
    unfold addToGroup, getClientIndexInGroup, getClientByConnectionID. run.
    rewrite bool_decide_eq_true_2 by done.
    rewrite getClientByConnectionID_in_find by done. rewrite Hf.
    destruct (verbose _); [apply logClients_state|done].
Qed.

(** X12. Joining a group and leaving it again gives the registry back.
    For the id of a client of "Global" that is not in the group,
    [addToGroup] appends the client's record at the end of the group
    (making the group if need be), and [removeFromGroupByID] then takes
    exactly that record out again and deletes the group if it was made
    for it: every group is as it was before the two calls. *)
Theorem join_then_leave (h : Hub) (g cid : string)
    (Hrec : None ∉ members_of (groups h) "Global")
    (Hclient : cid ∈ ids (members_of (groups h) "Global"))
    (Hnew : cid ∉ ids (members_of (groups h) g))
    (Hnonempty : groups h !! g ≠ Some []) :
  ∃ c,
    c_ConnectionID c = cid
    ∧ Some c ∈ members_of (groups h) "Global"
    ∧ groups (addToGroup g cid h).1
      = <[g := members_of (groups h) g ++ [Some c]]> (groups h)
    ∧ removeFromGroupByID g cid (addToGroup g cid h).1
      = (set_groups (λ _, groups h) (addToGroup g cid h).1, Ok tt).
Proof.
  destruct (addToGroup_client g cid h Hrec Hclient Hnew) as (c & Hc & Hin & Hst).
  exists c. split; [done|]. split; [done|]. rewrite Hst. split; [done|].
  rewrite removeFromGroupByID_run. f_equal. unfold set_groups. cbn. f_equal.
  set (l := members_of (groups h) g) in *.
  unfold drop_member. rewrite !members_of_insert_eq.
  assert (index_from 0 (l ++ [Some c]) cid = Z.of_nat (length l)) as Hi.
  { rewrite index_from_app_absent by done. cbn [index_from].
    rewrite bool_decide_eq_true_2 by done. lia. }
  assert (without cid (l ++ [Some c]) = l) as Hw.
  { unfold without. rewrite Hi.
    replace (Z.to_nat (Z.of_nat (length l))) with (length l) by lia.
    replace (Z.to_nat (Z.of_nat (length l) + 1)) with (S (length l)) by lia.
    rewrite take_app_length. rewrite drop_ge; [by rewrite app_nil_r|].
    rewrite length_app. cbn. lia. }
  rewrite Hi, Hw. rewrite bool_decide_eq_true_2 by lia.
  rewrite insert_insert_eq.
  destruct (bool_decide (length l = 0%nat)) eqn:E.
  - apply bool_decide_eq_true in E. rewrite delete_insert_eq.
    apply delete_id. unfold l, members_of in E.
    destruct (groups h !! g) as [l0|] eqn:Eg; [|done].
    cbn in E. destruct l0; [done|discriminate].
  - apply bool_decide_eq_false in E. apply insert_id.
    unfold l, members_of in *. destruct (groups h !! g) as [l0|] eqn:Eg; [done|].
    cbn in E. done.
Qed.

Lemma Sample_hub2_records : None ∉ members_of (groups Sample.hub2) "Global".
Proof.
  intros Hin. vm_compute in Hin. apply elem_of_cons in Hin as [|Hin]; [done|].
  apply elem_of_cons in Hin as [|Hin]; [done|]. by apply elem_of_nil in Hin.
Defined.

Lemma join_then_leave_witness :
  ∃ c,
    c_ConnectionID c = "c1"
    ∧ groups (addToGroup "room" "c1" Sample.hub2).1
      = <["room" := [Some c]]> (groups Sample.hub2)
    ∧ removeFromGroupByID "room" "c1" (addToGroup "room" "c1" Sample.hub2).1
      = (set_groups (λ _, groups Sample.hub2) (addToGroup "room" "c1" Sample.hub2).1, Ok tt).
Proof.
  assert ("c1" ∈ ids (members_of (groups Sample.hub2) "Global")) as Hc.
  { apply (bool_decide_unpack _). vm_compute. exact I. }
  assert ("c1" ∉ ids (members_of (groups Sample.hub2) "room")) as Hn.
  { apply (bool_decide_unpack _). vm_compute. exact I. }
  destruct (join_then_leave Sample.hub2 "room" "c1" Sample_hub2_records Hc Hn
              (ltac:(discriminate))) as (c & Hid & _ & Hadd & Hrem).
  exists c. split; [exact Hid|]. split; [exact Hadd | exact Hrem].
Defined.

(** ** Invariants of the group registry *)

Lemma left_of_NoDup cid l l' :
  NoDup (ids l) → left_of cid (Some l) = Some l' → NoDup (ids l').
Proof.
  intros Hnd. unfold left_of. destruct (bool_decide (-1 < _)).
  - destruct (bool_decide (length _ = 0%nat)); [done|]. intros [= <-].
    apply (sublist_NoDup _ (ids l)); [done|]. apply ids_sublist, without_sublist.
  - by intros [= <-].
Qed.

(** X13. The registry never holds an empty group: a fresh exchange has
    no group at all, and a negotiation, [addToGroup], [removeFromGroupByID]
    and [removeFromAllGroups] each leave no group empty if none was. *)
Theorem no_group_is_left_empty (h : Hub) (g cid t : string) (v : Z) :
  no_empty_group (groups (NewExchange v))
  ∧ (no_empty_group (groups h) →
     no_empty_group (groups (addClient cid t h).1)
     ∧ no_empty_group (groups (addToGroup g cid h).1)
     ∧ no_empty_group (groups (removeFromGroupByID g cid h).1)
     ∧ no_empty_group (groups (removeFromAllGroups cid h).1)).
Proof.
  split; [apply map_Forall_empty|]. intros Hne.
  split; [|split; [|split]].
  - cbn. apply map_Forall_insert_2; [|done]. by destruct (members_of _ _).
  - destruct (decide (cid ∈ ids (members_of (groups h) g))) as [Hin|Hno].
    + by rewrite addToGroup_member.
    + destruct (addToGroup_absent g cid h Hno) as [->|(p & -> & _)]; [done|].
      cbn. apply map_Forall_insert_2; [|done]. by destruct (members_of _ _).
  - rewrite removeFromGroupByID_run. cbn. unfold drop_member.
    destruct (bool_decide (-1 < _)); [|done].
    destruct (bool_decide (length _ = 0%nat)) eqn:E.
    + rewrite delete_insert_eq. by apply map_Forall_delete.
    + apply bool_decide_eq_false in E. apply map_Forall_insert_2; [|done].
      intros Hw. by rewrite Hw in E.
  - apply map_Forall_lookup. intros g' l'. rewrite removeFromAllGroups_lookup.
    destruct (groups h !! g') as [l|] eqn:Eg; [|done].
    intros Hl ->. apply left_of_nonempty in Hl. subst l. by apply (Hne g' []).
Qed.

Lemma no_group_is_left_empty_witness :
  no_empty_group (groups (removeFromAllGroups "c1" SampleGroups.hub3).1)
  ∧ no_empty_group (groups (addToGroup "room" "ghost" SampleGroups.hub3).1).
Proof.
  assert (no_empty_group (groups SampleGroups.hub3)) as Hne.
  { unfold no_empty_group. apply (bool_decide_unpack _). vm_compute. exact I. }
  destruct (proj2 (no_group_is_left_empty SampleGroups.hub3 "room" "c1" "websocket" 0) Hne)
    as (_ & _ & _ & Hall).
  destruct (proj2 (no_group_is_left_empty SampleGroups.hub3 "room" "ghost" "websocket" 0) Hne)
    as (_ & Hadd & _).
  split; [exact Hall | exact Hadd].
Defined.

(** X14. That no group holds two records with one connection id is kept
    by a negotiation that is given an id no client of "Global" has, by
    [removeFromGroupByID] and by [removeFromAllGroups]; and once
    [removeFromAllGroups] has run for an id on such a registry, running it
    again for that id changes no group. *)
Theorem distinct_ids_are_kept (h : Hub) (g cid t : string)
    (Hok : groups_ok (groups h)) :
  (cid ∉ ids (members_of (groups h) "Global") → groups_ok (groups (addClient cid t h).1))
  ∧ groups_ok (groups (removeFromGroupByID g cid h).1)
  ∧ groups_ok (groups (removeFromAllGroups cid h).1)
  ∧ groups (removeFromAllGroups cid (removeFromAllGroups cid h).1).1
    = groups (removeFromAllGroups cid h).1.
Proof.
  split; [intros Hfresh; by apply addClient_groups_ok|].
  split; [by apply removeFromGroupByID_groups_ok|]. split.
  - apply map_Forall_lookup. intros g' l'. rewrite removeFromAllGroups_lookup.
    destruct (groups h !! g') as [l|] eqn:Eg; [|done].
    apply left_of_NoDup. by apply (Hok g' l).
  - apply map_eq. intros g'. rewrite removeFromAllGroups_lookup.
    destruct (groups (removeFromAllGroups cid h).1 !! g') as [l'|] eqn:E; [|done].
    apply without_absent. rewrite removeFromAllGroups_lookup in E.
    destruct (groups h !! g') as [l|] eqn:Eg; [|done].
    apply (left_of_clears cid l l'); [by apply (Hok g' l)|done].
Qed.

Lemma distinct_ids_are_kept_witness :
  groups_ok (groups (addClient "c3" "longpoll" SampleGroups.hub3).1)
  ∧ groups_ok (groups (removeFromAllGroups "c1" SampleGroups.hub3).1).
Proof.
  assert (groups_ok (groups SampleGroups.hub3)) as Hok.
  { unfold groups_ok. apply (bool_decide_unpack _). vm_compute. exact I. }
  assert ("c3" ∉ ids (members_of (groups SampleGroups.hub3) "Global")) as Hfresh.
  { apply (bool_decide_unpack _). vm_compute. exact I. }
  destruct (distinct_ids_are_kept SampleGroups.hub3 "room" "c3" "longpoll" Hok)
    as (Hadd & _).
  destruct (distinct_ids_are_kept SampleGroups.hub3 "room" "c1" "longpoll" Hok)
    as (_ & _ & Hall & _).
  split; [exact (Hadd Hfresh) | exact Hall].
Defined.

(** ** Decoding envelopes *)

Lemma decode_members_app m fs1 fs2 :
  decode_members m (fs1 ++ fs2)
  = ((decode_members (decode_members m fs1).1 fs2).1,
     (decode_members m fs1).2 && (decode_members (decode_members m fs1).1 fs2).2).
Proof.
  revert m. induction fs1 as [|kv fs1 IH]; intros m.
  - cbn. by destruct (decode_members m fs2).
  - cbn [app decode_members]. destruct (decode_member m kv) as [m1 ok1].
    rewrite IH. destruct (decode_members m1 fs1) as [m2 ok2]. cbn.
    destruct (decode_members m2 fs2) as [m3 ok3]. cbn. by rewrite andb_assoc.
Qed.

Lemma decode_member_fits m kv : (decode_member m kv).2 = member_fits kv.
Proof.
  unfold decode_member, member_fits. destruct kv as [k v]. cbn.
  destruct (field_of_key k) as [[]|]; by destruct v.
Qed.

Lemma decode_member_skipped m kv :
  field_of_key kv.1 = None ∨ member_fits kv = false → (decode_member m kv).1 = m.
Proof.
  unfold decode_member, member_fits. destruct kv as [k v]. cbn.
  destruct (field_of_key k) as [[]|]; intros [?|?]; try done; by destruct v.
Qed.

Lemma decode_members_without m fs1 kv fs2 :
  field_of_key kv.1 = None ∨ member_fits kv = false →
  (decode_members m (fs1 ++ kv :: fs2)).1 = (decode_members m (fs1 ++ fs2)).1.
Proof.
  intros Hkv. rewrite !decode_members_app. cbn [fst decode_members].
  pose proof (decode_member_skipped (decode_members m fs1).1 kv Hkv) as Hs.
  destruct (decode_member (decode_members m fs1).1 kv) as [m1 ok1]. cbn in Hs. subst m1.
  by destruct (decode_members (decode_members m fs1).1 fs2).
Qed.

Lemma decode_members_ok m fs : (decode_members m fs).2 = forallb member_fits fs.
Proof.
  revert m. induction fs as [|kv fs IH]; intros m; [done|].
  cbn [decode_members forallb]. pose proof (decode_member_fits m kv) as Hf.
  destruct (decode_member m kv) as [m1 ok1]. cbn in Hf. subst ok1.
  specialize (IH m1). destruct (decode_members m1 fs) as [m2 ok2]. cbn in *. by subst.
Qed.

(** X15. Members of an envelope whose key is that of no field are
    ignored, wherever they stand: the envelope decodes as it does without
    them, to the same fields and with the same error or none, so a
    socket message and an HTTP call are handled the same with and
    without them. *)
Theorem unknown_members_are_ignored (fs1 fs2 : list (string * value)) (k : string)
    (v : value) (c : connection) (cids : list string)
    (Hk : field_of_key k = None) :
  unmarshal (Json (VObj (fs1 ++ (k, v) :: fs2))) = unmarshal (Json (VObj (fs1 ++ fs2)))
  ∧ read_message c (Json (VObj (fs1 ++ (k, v) :: fs2)))
    = read_message c (Json (VObj (fs1 ++ fs2)))
  ∧ callServer (Json (VObj (fs1 ++ (k, v) :: fs2))) cids
    = callServer (Json (VObj (fs1 ++ fs2))) cids.
Proof.
  assert (unmarshal (Json (VObj (fs1 ++ (k, v) :: fs2)))
          = unmarshal (Json (VObj (fs1 ++ fs2)))) as Heq.
  { cbn [unmarshal]. apply injective_projections.
    - apply (decode_members_without _ fs1 (k, v) fs2). by left.
    - rewrite !decode_members_ok, !forallb_app. cbn [forallb].
      unfold member_fits at 2. cbn. by rewrite Hk. }
  split; [done|]. split.
  - unfold read_message. by rewrite Heq.
  - unfold callServer. by rewrite Heq.
Qed.

Lemma unknown_members_are_ignored_witness :
  unmarshal (Json (VObj [("R", VStr "Chat"); ("id", VNum 7); ("M", VStr "Hello")]))
  = unmarshal (Json (VObj [("R", VStr "Chat"); ("M", VStr "Hello")])).
Proof.
  exact (proj1 (unknown_members_are_ignored [("R", VStr "Chat")] [("M", VStr "Hello")]
                  "id" (VNum 7) Sample.conn1 [] eq_refl)).
Defined.



(** ** Routes *)

Lemma string_app_cons a s1 s2 : String a s1 +:+ s2 = String a (s1 +:+ s2).
Proof. reflexivity. Qed.

Lemma string_length_app s1 s2 :
  String.length (s1 +:+ s2) = (String.length s1 + String.length s2)%nat.
Proof.
  induction s1 as [|a s1 IH]; [done|]. rewrite string_app_cons. cbn. by rewrite IH.
Qed.

Lemma string_drop_app s1 s2 : string_drop (String.length s1) (s1 +:+ s2) = s2.
Proof.
  induction s1 as [|a s1 IH]; [by destruct s2|]. rewrite string_app_cons. exact IH.
Qed.

Lemma string_take_app s1 s2 : string_take (String.length s1) (s1 +:+ s2) = s1.
Proof.
  induction s1 as [|a s1 IH]; [by destruct s2|]. rewrite string_app_cons. cbn.
  by rewrite IH.
Qed.

Lemma prefix_refl s : String.prefix s s = true.
Proof.
  induction s as [|a s IH]; cbn [String.prefix]; [done|]. by destruct (ascii_dec a a).
Qed.

(** No place in a string without slash is the start of a string that
    begins with a slash. *)
Lemma last_index_from_slash_free sub t i best :
  slash_free t = true → last_index_from (String "/" sub) t i best = best.
Proof.
  revert i. induction t as [|a t IH]; intros i Hfree;
    cbn [last_index_from String.prefix slash_free] in *; [done|].
  destruct (ascii_dec "/" a); [done|]. by apply IH.
Qed.

(** The last place where ["/" ++ sub] starts in [dir ++ "/" ++ op], when
    [op] has no slash and begins with [sub]. *)
Lemma last_index_from_last_segment sub dir op i best :
  slash_free op = true →
  String.prefix sub op = true →
  last_index_from (String "/" sub) (dir +:+ String "/" op) i best
  = i + Z.of_nat (String.length dir).
Proof.
  intros Hfree Hpre. revert i best. induction dir as [|a dir IH]; intros i best.
  - change ("" +:+ String "/" op) with (String "/" op).
    cbn [last_index_from String.prefix String.length].
    destruct (ascii_dec "/" "/"); [|done]. rewrite Hpre.
    rewrite last_index_from_slash_free by done. lia.
  - rewrite string_app_cons. cbn [last_index_from String.length]. rewrite IH. lia.
Qed.

Lemma last_index_from_bounds a sub s i best :
  -1 ≤ best < i →
  -1 ≤ last_index_from (String a sub) s i best < i + Z.of_nat (String.length s).
Proof.
  revert i best. induction s as [|b s IH]; intros i best Hb.
  - cbn. lia.
  - cbn [last_index_from String.length].
    destruct (String.prefix (String a sub) (String b s)).
    + specialize (IH (i + 1) i). lia.
    + specialize (IH (i + 1) best). lia.
Qed.

Lemma LastIndex_slash_free path : slash_free path = true → LastIndex path "/" = -1.
Proof. intros Hfree. unfold LastIndex. by apply last_index_from_slash_free. Qed.

Lemma extractOperationFromURL_segment dir op :
  slash_free op = true → extractOperationFromURL (dir +:+ "/" +:+ op) = Some op.
Proof.
  intros Hfree. unfold extractOperationFromURL, slice_from, LastIndex.
  change ("/" +:+ op) with (String "/" op).
  rewrite (last_index_from_last_segment "" dir op) by (done || by destruct op).
  rewrite string_length_app. cbn [String.length].
  rewrite bool_decide_eq_true_2 by lia.
  replace (Z.to_nat (0 + Z.of_nat (String.length dir) + 1))
    with (String.length (dir +:+ "/")) by (rewrite string_length_app; cbn; lia).
  replace (dir +:+ String "/" op) with ((dir +:+ "/") +:+ op).
  - by rewrite string_drop_app.
  - clear. induction dir as [|a dir IH]; [done|].
    rewrite !string_app_cons. by rewrite IH.
Qed.

Lemma extractOperationFromURL_whole path :
  slash_free path = true → extractOperationFromURL path = Some path.
Proof.
  intros Hfree. unfold extractOperationFromURL, slice_from.
  rewrite LastIndex_slash_free by done. cbn.
  rewrite bool_decide_eq_true_2 by lia. by destruct path.
Qed.

(** X17. [extractOperationFromURL] never slices out of range.  It
    returns what follows the last slash of the path: the last segment
    [op] of [dir/op], for whatever [dir], and the whole path when there is
    no slash in it. *)
Theorem extractOperationFromURL_last_segment (path dir op : string) :
  is_Some (extractOperationFromURL path)
  ∧ (slash_free op = true → extractOperationFromURL (dir +:+ "/" +:+ op) = Some op)
  ∧ (slash_free path = true → extractOperationFromURL path = Some path).
Proof.
  split; [|split].
  - unfold extractOperationFromURL, slice_from, LastIndex.
    pose proof (last_index_from_bounds "/" "" path 0 (-1)) as Hb.
    rewrite bool_decide_eq_true_2 by lia. by eexists.
  - apply extractOperationFromURL_segment.
  - apply extractOperationFromURL_whole.
Qed.

Lemma extractOperationFromURL_last_segment_witness :
  extractOperationFromURL "/relayr/negotiate" = Some "negotiate"
  ∧ extractOperationFromURL "negotiate" = Some "negotiate".
Proof.
  destruct (extractOperationFromURL_last_segment "negotiate" "/relayr" "negotiate")
    as (_ & Hseg & Hwhole).
  split; [exact (Hseg eq_refl) | exact (Hwhole eq_refl)].
Defined.

(** X18. [ServeHTTP] routes a path [dir/op] on [op]: to the handler of the
    first of the four operations that [op] names, and otherwise to the
    client script, generated for [dir] after the main URL as route and
    after the main URL without scheme as base.  A path without a slash
    that is no operation name makes it panic, on the slice of the path. *)
Theorem ServeHTTP_routes (ops : operations) (mainURL mainURLWithoutScheme dir op : string)
    (Hfree : slash_free op = true) :
  ServeHTTP ops mainURL mainURLWithoutScheme (dir +:+ "/" +:+ op)
  = Some (if bool_decide (op = opWebSocket ops) then ToUpgradeWebSocket
          else if bool_decide (op = opNegotiate ops) then ToNegotiateConnection
          else if bool_decide (op = opLongPoll ops) then ToAwaitLongPoll
          else if bool_decide (op = opCallServer ops) then ToCallServer
          else ToWriteClientScript (mainURLWithoutScheme +:+ dir) (mainURL +:+ dir))
  ∧ (op ≠ opWebSocket ops → op ≠ opNegotiate ops → op ≠ opLongPoll ops →
     op ≠ opCallServer ops →
     ServeHTTP ops mainURL mainURLWithoutScheme op = None).
Proof.
  split.
  - unfold ServeHTTP.
    rewrite extractOperationFromURL_segment by done.
    repeat (destruct (bool_decide (op = _)); [done|]).
    unfold slice_to, LastIndex. change ("/" +:+ op) with (String "/" op).
    rewrite (last_index_from_last_segment op dir op) by (done || apply prefix_refl).
    rewrite string_length_app.
    rewrite bool_decide_eq_true_2 by lia.
    replace (Z.to_nat (0 + Z.of_nat (String.length dir))) with (String.length dir) by lia.
    by rewrite string_take_app.
  - intros H1 H2 H3 H4. unfold ServeHTTP.
    rewrite extractOperationFromURL_whole by done.
    rewrite !bool_decide_eq_false_2 by done.
    unfold slice_to, LastIndex. change ("/" +:+ op) with (String "/" op).
    rewrite last_index_from_slash_free by done.
    by rewrite bool_decide_eq_false_2 by lia.
Qed.

Lemma ServeHTTP_routes_witness :
  ServeHTTP SampleRoutes.ops "http://host" "host" "/relayr/call" = Some ToCallServer
  ∧ ServeHTTP SampleRoutes.ops "http://host" "host" "/app/relayr"
    = Some (ToWriteClientScript "host/app" "http://host/app")
  ∧ ServeHTTP SampleRoutes.ops "http://host" "host" "" = None.
Proof.
  split; [|split].
  - exact (proj1 (ServeHTTP_routes SampleRoutes.ops "http://host" "host" "/relayr" "call"
                    eq_refl)).
  - exact (proj1 (ServeHTTP_routes SampleRoutes.ops "http://host" "host" "/app" "relayr"
                    eq_refl)).
  - apply (proj2 (ServeHTTP_routes SampleRoutes.ops "http://host" "host" "" "" eq_refl));
      discriminate.
Defined.

(** ** The client script and its cache *)

Lemma string_length_pos s : s ≠ "" → (0 < String.length s)%nat.
Proof. destruct s; [done|]. cbn. lia. Qed.

(** X19. With the cache on and empty, a request is answered with the
    script generated for the relays and URLs of that request, and, if the
    script is not the empty string, every later request is answered with
    that same script, whatever relays have been registered since and
    whatever route it is for; an empty script is not kept, so the next
    request generates again.  With the cache disabled every request is
    answered with a script generated for it, and the stored script is
    neither served nor replaced. *)
Theorem script_cache_serves_first_script (T : templates) (rs1 rs2 : list Relay)
    (baseURL1 route1 baseURL2 route2 : string) (st : scriptCache) :
  (cacheEnabled st = true → clientScript st = "" →
   (writeClientScript T rs1 baseURL1 route1 st).1
   = finished st (scriptText T rs1 baseURL1 route1)
   ∧ (finished st (scriptText T rs1 baseURL1 route1) ≠ "" →
      writeClientScript T rs2 baseURL2 route2 (writeClientScript T rs1 baseURL1 route1 st).2
      = (finished st (scriptText T rs1 baseURL1 route1),
         (writeClientScript T rs1 baseURL1 route1 st).2))
   ∧ (finished st (scriptText T rs1 baseURL1 route1) = "" →
      (writeClientScript T rs2 baseURL2 route2
         (writeClientScript T rs1 baseURL1 route1 st).2).1
      = finished st (scriptText T rs2 baseURL2 route2)))
  ∧ writeClientScript T rs2 baseURL2 route2 (DisableScriptCache st)
    = (finished st (scriptText T rs2 baseURL2 route2), DisableScriptCache st).
Proof.
  split.
  - intros Hon Hempty.
    assert (writeClientScript T rs1 baseURL1 route1 st
            = (finished st (scriptText T rs1 baseURL1 route1),
               {| clientScript := finished st (scriptText T rs1 baseURL1 route1);
                  cacheEnabled := true; ClientScriptFunc := ClientScriptFunc st |})) as ->.
    { unfold writeClientScript. rewrite Hempty, Hon. reflexivity. }
    split; [done|]. split.
    + intros Hne. unfold writeClientScript. cbn [clientScript cacheEnabled fst snd].
      rewrite bool_decide_eq_true_2 by (by apply string_length_pos). reflexivity.
    + intros He. unfold writeClientScript. cbn [clientScript cacheEnabled fst snd].
      rewrite He. reflexivity.
  - unfold writeClientScript, DisableScriptCache. cbn [cacheEnabled].
    by rewrite andb_false_r.
Qed.

Lemma script_cache_serves_first_script_witness :
  writeClientScript SampleRoutes.text (relays Sample.hub) "host/app" "http://host/app"
    SampleRoutes.fresh_cache
  = ("conn(host/app,http://host/app);relays{Chat:{Broadcast=Chat.Broadcast;}}",
     (writeClientScript SampleRoutes.text (relays Sample.hub) "host/app" "http://host/app"
        SampleRoutes.fresh_cache).2)
  ∧ (writeClientScript SampleRoutes.text [] "other" "http://other"
       (writeClientScript SampleRoutes.text (relays Sample.hub) "host/app" "http://host/app"
          SampleRoutes.fresh_cache).2).1
    = "conn(host/app,http://host/app);relays{Chat:{Broadcast=Chat.Broadcast;}}".
Proof.
  destruct (proj1 (script_cache_serves_first_script SampleRoutes.text (relays Sample.hub) []
                     "host/app" "http://host/app" "other" "http://other"
                     SampleRoutes.fresh_cache) eq_refl eq_refl) as (Hfirst & Hnext & _).
  split; [reflexivity|]. rewrite (Hnext ltac:(discriminate)). reflexivity.
Defined.

(** ** Handles made on the server side *)

(** X20. A handle made with [e.Relay(x)] is bound to the id generated for
    it.  Such an id is not empty and belongs to no client, and then a
    client call through the handle reaches nobody: "Global" is searched,
    no client is found, and the hub is left as it is.  It is only through
    a handle without connection id that [callClientMethod] broadcasts. *)
Theorem server_handle_reaches_nobody (h : Hub) (t : rtype) (cID fn : string)
    (args : list value) (r : Relay)
    (Hres : Exchange_Relay t cID h = (h, Ok (Some r)))
    (Hid : cID ≠ "")
    (Hrec : None ∉ members_of (groups h) "Global")
    (Hnone : cID ∉ ids (members_of (groups h) "Global")) :
  r_ConnectionID r = cID
  ∧ callClientMethod (Some r) fn args h = (h, Ok tt).
Proof.
  unfold Exchange_Relay, getRelayByName in Hres.
  unfold mbind, M_bind, bind, get, ret in Hres.
  assert (getRelayByName_in (relays h) (type_Name t) cID = Some r) as Hr by congruence.
  apply getRelayByName_in_Some in Hr as (_ & Hc & _).
  split; [done|].
  unfold callClientMethod, getClientByConnectionID. run. rewrite Hc.
  rewrite bool_decide_eq_false_2 by done.
  rewrite getClientByConnectionID_in_find by done.
  by rewrite find_id_absent.
Qed.

Lemma server_handle_reaches_nobody_witness :
  callClientMethod (Some (SampleBroadcast.handle "s1")) "Hello" [VStr "hi"] Sample.hub2
  = (Sample.hub2, Ok tt).
Proof.
  assert ("s1" ∉ ids (members_of (groups Sample.hub2) "Global")) as Hnone.
  { apply (bool_decide_unpack _). vm_compute. exact I. }
  exact (proj2 (server_handle_reaches_nobody Sample.hub2 Sample.Chat "s1" "Hello" [VStr "hi"]
                  (SampleBroadcast.handle "s1") eq_refl ltac:(discriminate)
                  Sample_hub2_records Hnone)).
Defined.
